(** * Commodities quant: percentile factor, hysteresis signals, vector backtest

    A shallow embedding of the analytical core of the repository:

    - [Factors]  : [rolling_percentile] and its closure [calc_pct]
                   (factors.py), together with the fixed-window
                   [rolling(...).apply(...)] of the data-frame library it
                   is written against; the fill block of the source
                   series, the global and regional percentile tables, the
                   derived ratio tables and the dashboard ladder;
    - [Strategy] : the four-threshold state machine of
                   [BetaStrategy.generate_signals] (strategy.py), the
                   arbitrage and event machines, the current signal and
                   the signal summary;
    - [Backtest] : the column computations of [VectorBacktester.run] and
                   [VectorBacktester._calc_trade_stats]
                   (backtest_engine.py), the drawdown metrics and
                   [prepare_data];
    - [Dashboard]: the threshold ladders of views/dashboard.py and
                   utils.py.

    Numbers.  Python floats are read as exact rationals [Q]; a missing
    value (NaN) is [None] in [option Q].  Infinite floats and rounding are
    therefore outside the model.  Python ints are [Z].  Equality of
    rationals is [==] ([Qeq]).  A date-indexed series is the list of its
    values in date order, so "date t" is position [t]; where dates are
    compared they are integers (day numbers). *)

From Stdlib Require Import List ZArith QArith Qabs Qminmax Lia Lqa Bool Sorted.
Import ListNotations.

Open Scope Q_scope.

(** ** Shared vocabulary *)

(** Strict comparison of two floats, as a boolean. *)
Definition Qlt_bool (x y : Q) : bool := negb (Qle_bool y x).

(** Exceptions the modelled code can raise. *)
Inductive exn : Type :=
| ValueError
| IndexError.

Inductive result (A : Type) : Type :=
| Ok (a : A)
| Raise (e : exn).

Arguments Ok {A} a.
Arguments Raise {A} e.

Definition bind {A B : Type} (m : result A) (k : A -> result B) : result B :=
  match m with
  | Ok a => k a
  | Raise e => Raise e
  end.

Notation "x <- m ;; k" := (bind m (fun x => k))
  (at level 61, m at next level, right associativity).

(** Running a fallible function over a list, left to right; the first
    exception aborts the loop. *)
Fixpoint mapM {A B : Type} (f : A -> result B) (l : list A) : result (list B) :=
  match l with
  | [] => Ok []
  | a :: t => b <- f a ;; bs <- mapM f t ;; Ok (b :: bs)
  end.

(** [Series.fillna(d)] on one cell. *)
Definition fillna (d : Q) (v : option Q) : Q :=
  match v with
  | Some q => q
  | None => d
  end.

Definition notna (v : option Q) : bool :=
  match v with
  | Some _ => true
  | None => false
  end.

(** [Series.shift(1)]: every value moves one date later, the first date
    becomes missing and the last value falls off. *)
Definition shift {A : Type} (l : list A) : list (option A) :=
  firstn (length l) (None :: map Some l).

(** [x.iloc[-1]]: the last element; [None] stands for the IndexError on
    an empty series. *)
Fixpoint iloc_last {A : Type} (x : list A) : option A :=
  match x with
  | [] => None
  | [a] => Some a
  | _ :: t => iloc_last t
  end.

(** Python [len]. *)
Definition len {A : Type} (x : list A) : Z := Z.of_nat (length x).

(** [pd.isna] on one cell. *)
Definition isna {A : Type} (v : option A) : bool :=
  match v with
  | Some _ => false
  | None => true
  end.

(** [Series.ffill()]: a missing cell takes the last value seen before it;
    [last] is that value, missing until a first value has been seen. *)
Fixpoint ffill_from {A : Type} (last : option A) (s : list (option A))
    : list (option A) :=
  match s with
  | [] => []
  | Some v :: t => Some v :: ffill_from (Some v) t
  | None :: t => last :: ffill_from last t
  end.

Definition ffill {A : Type} (s : list (option A)) : list (option A) :=
  ffill_from None s.

(** [series[series.first_valid_index()]]: the first non-missing value. *)
Fixpoint first_valid {A : Type} (s : list (option A)) : option A :=
  match s with
  | [] => None
  | Some v :: _ => Some v
  | None :: t => first_valid t
  end.

(** [Series.fillna(d)] on a whole series. *)
Definition series_fillna {A : Type} (d : A) (s : list (option A))
    : list (option A) :=
  map (fun v => Some (match v with Some x => x | None => d end)) s.

(** [df[df[date_col] >= start]] on rows that carry a date. *)
Definition rows_from {R : Type} (date_of : R -> Z) (start : Z) (rows : list R)
    : list R :=
  filter (fun r => (start <=? date_of r)%Z) rows.

(** ** factors.py *)

Module Factors.

(** One cell of [x < current]: a comparison with a missing value on
    either side is False. *)
Definition lt_scalar (current v : option Q) : bool :=
  match v, current with
  | Some a, Some c => Qlt_bool a c
  | _, _ => false
  end.

(** [(x < current).sum()]. *)
Definition rank_of (x : list (option Q)) (current : option Q) : Z :=
  len (filter (lt_scalar current) x).

(** [rank / (len(x) - 1) if len(x) > 1 else 0.5]. *)
Definition rank_fraction (x : list (option Q)) (current : option Q) : Q :=
  let rank := rank_of x current in
  if (1 <? len x)%Z then inject_Z rank / inject_Z (len x - 1) else 1 # 2.

(** The closure [calc_pct] of [rolling_percentile]; [window] is the
    captured parameter.  Below half a window of rows it returns NaN;
    [x.iloc[-1]] raises on an empty slice. *)
Definition calc_pct (window : Z) (x : list (option Q)) : result (option Q) :=
  if Qlt_bool (inject_Z (len x)) (inject_Z window * (1 # 2)) then Ok None
  else
    match iloc_last x with
    | None => Raise IndexError
    | Some current => Ok (Some (rank_fraction x current))
    end.

(** A cell that holds the value [c]. *)
Definition tied (c : Q) (v : option Q) : Prop :=
  exists q, v = Some q /\ q == c.

(** The slice handed to the closure at position [i] by a fixed window of
    [window] rows, right-closed: rows [max 0 (i+1-window) .. i]. *)
Definition window_at {A : Type} (series : list A) (window i : nat) : list A :=
  skipn (S i - window) (firstn (S i) series).

(** Number of non-missing cells of a slice. *)
Definition count_valid (x : list (option Q)) : Z :=
  len (filter notna x).

(** [series.rolling(window=window, min_periods=min_periods).apply(f, raw=False)]
    of the data-frame library, for an integer window.  The constructor
    rejects a negative window, a negative [min_periods] and
    [min_periods > window]; then, at each position, the closure runs on the
    slice when the slice holds at least [min_periods] non-missing cells,
    and the output is missing otherwise. *)
Definition rolling_apply (series : list (option Q)) (window min_periods : Z)
    (f : list (option Q) -> result (option Q)) : result (list (option Q)) :=
  if (window <? 0)%Z then Raise ValueError
  else if (min_periods <? 0)%Z then Raise ValueError
  else if (window <? min_periods)%Z then Raise ValueError
  else
    mapM (fun i =>
            let x := window_at series (Z.to_nat window) i in
            if (min_periods <=? count_valid x)%Z then f x else Ok None)
         (seq 0 (length series)).

(** [int(window * 0.5)]: truncation toward zero. *)
Definition min_periods_of (window : Z) : Z := Z.quot window 2.

Definition rolling_percentile (series : list (option Q)) (window : Z)
    : result (list (option Q)) :=
  rolling_apply series window (min_periods_of window) (calc_pct window).

(** The fill block shared by [prepare_inventory_data] and
    [get_metric_series], on a series already reindexed to the date axis:
    forward fill, then the dates before the first observation take the
    first observed value, or 0 when nothing was ever observed. *)
Definition fill_gaps (series : list (option Q)) : list (option Q) :=
  let series := ffill series in
  if existsb isna series then
    match first_valid series with
    | Some first_value => series_fillna first_value series
    | None => series_fillna 0 series
    end
  else series.

(** [prepare_inventory_data]: every source column filled. *)
Definition prepare_inventory_data (reindexed : list (list (option Q)))
    : list (list (option Q)) :=
  map fill_gaps reindexed.

(** [combined.sum(axis=1)] over the source columns, on an axis of [n]
    dates; the row sum skips missing cells. *)
Definition row_total (cols : list (list (option Q))) (i : nat) : Q :=
  fold_right (fun col acc => fillna 0 (nth i col None) + acc) 0 cols.

Definition total_inventory (n : nat) (cols : list (list (option Q)))
    : list (option Q) :=
  map (fun i => Some (row_total cols i)) (seq 0 n).

Record GlobalRow : Type := {
  g_date : Z;
  g_total : option Q;
  g_percentile : option Q;
  g_sources : list (option Q)
}.

(** The rows of [combined] before the display filter. *)
Definition global_rows (dates : list Z) (cols : list (list (option Q)))
    (total pct : list (option Q)) : list GlobalRow :=
  map (fun i => {| g_date := nth i dates 0%Z;
                   g_total := nth i total None;
                   g_percentile := nth i pct None;
                   g_sources := map (fun col => nth i col None) cols |})
      (seq 0 (length dates)).

(** [calculate_global_percentile]: [dates] is the date axis, [reindexed]
    the source series on that axis, [display_start] the first displayed
    date (today minus the display years). *)
Definition calculate_global_percentile (dates : list Z)
    (reindexed : list (list (option Q))) (rolling_window display_start : Z)
    : result (list GlobalRow) :=
  let inventory_data := prepare_inventory_data reindexed in
  let total := total_inventory (length dates) inventory_data in
  pct <- rolling_percentile total rolling_window ;;
  Ok (rows_from g_date display_start (global_rows dates inventory_data total pct)).



(** *** Derived metrics *)


(** One cell of [c > 0]; False on a missing cell. *)
Definition gt0 (c : option Q) : bool :=
  match c with
  | Some x => Qlt_bool 0 x
  | None => false
  end.













(** *** Dashboard signal *)

Inductive Outlook : Type :=
| StrongBullish
| Bullish
| Neutral
| Bearish
| StrongBearish.

(** The latest percentile shown by [get_dashboard_signals]: the last
    non-missing one, 0.5 when there is none. *)
Definition latest_or_half (percentiles : list (option Q)) : Q :=
  match iloc_last (filter notna percentiles) with
  | Some (Some p) => p
  | _ => 1 # 2
  end.

(** The threshold ladder of [get_dashboard_signals], in its order. *)
Definition dashboard_outlook (latest_pct : Q) : Outlook :=
  if Qle_bool latest_pct (5 # 100) then StrongBullish
  else if Qle_bool (95 # 100) latest_pct then StrongBearish
  else if Qle_bool latest_pct (10 # 100) then Bullish
  else if Qle_bool (90 # 100) latest_pct then Bearish
  else Neutral.

End Factors.

(** ** strategy.py *)

Module Strategy.

Inductive Signal : Type :=
| SHORT
| FLAT
| LONG.

(** The IntEnum values. *)
Definition int_of_signal (s : Signal) : Z :=
  match s with
  | SHORT => (-1)%Z
  | FLAT => 0%Z
  | LONG => 1%Z
  end.

Record BetaStrategyParams : Type := {
  long_entry : Q;
  long_exit : Q;
  short_entry : Q;
  short_exit : Q
}.

(** The dataclass defaults. *)
Definition default_params : BetaStrategyParams :=
  {| long_entry := 5 # 100;
     long_exit := 30 # 100;
     short_entry := 95 # 100;
     short_exit := 70 # 100 |}.

(** Which branch of the loop body wrote the [reason] text. *)
Inductive Reason : Type :=
| MissingData
| EnterLong
| EnterShort
| Watch
| LongToShort
| CloseLong
| HoldLong
| ShortToLong
| CloseShort
| HoldShort.

Record SignalRow : Type := {
  percentile : option Q;
  signal : Signal;
  reason : Reason
}.

(** One pass of the loop body of [generate_signals] on a non-missing
    percentile: the new position and the branch taken. *)
Definition transition (params : BetaStrategyParams) (position : Signal) (pct : Q)
    : Signal * Reason :=
  match position with
  | FLAT =>
      if Qlt_bool pct (long_entry params) then (LONG, EnterLong)
      else if Qlt_bool (short_entry params) pct then (SHORT, EnterShort)
      else (FLAT, Watch)
  | LONG =>
      if Qlt_bool (long_exit params) pct then
        if Qlt_bool (short_entry params) pct then (SHORT, LongToShort)
        else (FLAT, CloseLong)
      else (LONG, HoldLong)
  | SHORT =>
      if Qlt_bool pct (short_exit params) then
        if Qlt_bool pct (long_entry params) then (LONG, ShortToLong)
        else (FLAT, CloseShort)
      else (SHORT, HoldShort)
  end.

(** The [for idx, row in global_pct.iterrows()] loop, carrying [position]. *)
Fixpoint scan (params : BetaStrategyParams) (position : Signal)
    (pcts : list (option Q)) : list SignalRow :=
  match pcts with
  | [] => []
  | None :: rest =>
      {| percentile := None; signal := position; reason := MissingData |}
        :: scan params position rest
  | Some pct :: rest =>
      let '(position', why) := transition params position pct in
      {| percentile := Some pct; signal := position'; reason := why |}
        :: scan params position' rest
  end.

(** [generate_signals] on the percentile column: the scan starts FLAT. *)
Definition generate_signals (params : BetaStrategyParams)
    (pcts : list (option Q)) : list SignalRow :=
  scan params FLAT pcts.

Definition signals_of (rows : list SignalRow) : list Signal :=
  map signal rows.

(** Scenario B of the specification: the default thresholds and six
    scores. *)
Definition scenario_B_scores : list (option Q) :=
  [Some (3 # 100); Some (20 # 100); Some (40 # 100);
   Some (96 # 100); Some (72 # 100); Some (10 # 100)].

(** The final value of the loop variable [position], stored in
    [self._position]. *)
Fixpoint final_position (params : BetaStrategyParams) (position : Signal)
    (pcts : list (option Q)) : Signal :=
  match pcts with
  | [] => position
  | None :: rest => final_position params position rest
  | Some pct :: rest =>
      final_position params (fst (transition params position pct)) rest
  end.

(** [BaseStrategy.get_current_signal] once the signals are generated: the
    signal of the latest row, FLAT when there is no row. *)
Definition get_current_signal (rows : list Signal) : Signal :=
  match iloc_last rows with
  | Some s => s
  | None => FLAT
  end.

(** *** Arbitrage strategy *)

Record ArbitrageStrategyParams : Type := {
  spread_long_entry : Q;
  spread_long_exit : Q;
  spread_short_entry : Q;
  spread_short_exit : Q
}.

Definition default_arbitrage_params : ArbitrageStrategyParams :=
  {| spread_long_entry := -20 # 100;
     spread_long_exit := 0;
     spread_short_entry := 20 # 100;
     spread_short_exit := 0 |}.

(** The tail of [_get_source_percentiles] on the joined percentile
    columns: forward fill, drop the rows with a missing cell, take the
    spread. *)
Definition source_spreads (joined : list (option Q * option Q))
    : list (Q * Q * Q) :=
  flat_map (fun cl => match cl with
                      | (Some c, Some l) => [(c, l, c - l)]
                      | _ => []
                      end)
           (combine (ffill (map fst joined)) (ffill (map snd joined))).

(** One pass of the loop body of [ArbitrageStrategy.generate_signals]: the
    exits are reached with [>=] and [<=]. *)
Definition arbitrage_transition (params : ArbitrageStrategyParams)
    (position : Signal) (spread : Q) : Signal * Reason :=
  match position with
  | FLAT =>
      if Qlt_bool spread (spread_long_entry params) then (LONG, EnterLong)
      else if Qlt_bool (spread_short_entry params) spread then (SHORT, EnterShort)
      else (FLAT, Watch)
  | LONG =>
      if Qle_bool (spread_long_exit params) spread then
        if Qlt_bool (spread_short_entry params) spread then (SHORT, LongToShort)
        else (FLAT, CloseLong)
      else (LONG, HoldLong)
  | SHORT =>
      if Qle_bool spread (spread_short_exit params) then
        if Qlt_bool spread (spread_long_entry params) then (LONG, ShortToLong)
        else (FLAT, CloseShort)
      else (SHORT, HoldShort)
  end.

Fixpoint arbitrage_scan (params : ArbitrageStrategyParams) (position : Signal)
    (spreads : list (option Q)) : list SignalRow :=
  match spreads with
  | [] => []
  | None :: rest =>
      {| percentile := None; signal := position; reason := MissingData |}
        :: arbitrage_scan params position rest
  | Some spread :: rest =>
      let '(position', why) := arbitrage_transition params position spread in
      {| percentile := Some spread; signal := position'; reason := why |}
        :: arbitrage_scan params position' rest
  end.

(** [ArbitrageStrategy.generate_signals] on the joined percentile columns
    of the two exchanges; the [percentile] field of a row holds the spread. *)
Definition arbitrage_generate_signals (params : ArbitrageStrategyParams)
    (joined : list (option Q * option Q)) : list SignalRow :=
  arbitrage_scan params FLAT
    (map (fun r => Some (snd r)) (source_spreads joined)).

(** *** Event strategy *)

Record EventStrategyParams : Type := {
  divergence_long_entry : Q;
  divergence_long_exit : Q;
  slv_change_threshold : Q;
  comex_change_threshold : Q
}.

Definition default_event_params : EventStrategyParams :=
  {| divergence_long_entry := 15 # 10;
     divergence_long_exit := 5 # 10;
     slv_change_threshold := 2 # 100;
     comex_change_threshold := -2 # 100 |}.

(** The columns of one date read by the loop. *)
Record SqueezeRow : Type := {
  divergence : option Q;
  slv_change : option Q;
  comex_change : option Q
}.

Inductive EventReason : Type :=
| EvMissingData
| EvSqueeze
| EvAuxiliary
| EvWatch
| EvClose
| EvHold
| EvNone.

(** [auxiliary_condition]. *)
Definition auxiliary_condition (params : EventStrategyParams) (row : SqueezeRow)
    : bool :=
  match slv_change row, comex_change row with
  | Some s, Some c =>
      Qlt_bool (slv_change_threshold params) s
      && Qlt_bool c (comex_change_threshold params)
  | _, _ => false
  end.

(** One pass of the loop body of [EventStrategy.generate_signals] on a
    non-missing divergence [d]; no branch handles SHORT. *)
Definition event_transition (params : EventStrategyParams) (position : Signal)
    (row : SqueezeRow) (d : Q) : Signal * EventReason :=
  match position with
  | FLAT =>
      if Qlt_bool (divergence_long_entry params) d then (LONG, EvSqueeze)
      else if auxiliary_condition params row then (LONG, EvAuxiliary)
      else (FLAT, EvWatch)
  | LONG =>
      if Qlt_bool d (divergence_long_exit params) then (FLAT, EvClose)
      else (LONG, EvHold)
  | SHORT => (SHORT, EvNone)
  end.

Fixpoint event_scan (params : EventStrategyParams) (position : Signal)
    (data : list SqueezeRow) : list (Signal * EventReason) :=
  match data with
  | [] => []
  | row :: rest =>
      match divergence row with
      | None => (position, EvMissingData) :: event_scan params position rest
      | Some d =>
          let '(position', why) := event_transition params position row d in
          (position', why) :: event_scan params position' rest
      end
  end.

Definition event_generate_signals (params : EventStrategyParams)
    (data : list SqueezeRow) : list (Signal * EventReason) :=
  event_scan params FLAT data.

(** *** Signal summary *)

Definition signal_eqb (a b : Signal) : bool :=
  match a, b with
  | SHORT, SHORT | FLAT, FLAT | LONG, LONG => true
  | _, _ => false
  end.

Record SignalSummary : Type := {
  total_strategies : Z;
  long_count : Z;
  short_count : Z;
  flat_count : Z
}.

(** The counters of [StrategyEngine.get_signal_summary] over the current
    signals of the registered strategies. *)
Definition get_signal_summary (current : list Signal) : SignalSummary :=
  {| total_strategies := len current;
     long_count := len (filter (fun s => signal_eqb s LONG) current);
     short_count := len (filter (fun s => signal_eqb s SHORT) current);
     flat_count := len (filter (fun s => signal_eqb s FLAT) current) |}.

End Strategy.

(** ** backtest_engine.py *)

Module Backtest.

Record BacktestConfig : Type := {
  commission_rate : Q;
  slippage_rate : Q;
  risk_free_rate : Q;
  trading_days_per_year : Z
}.

(** The dataclass defaults. *)
Definition default_config : BacktestConfig :=
  {| commission_rate := 1 # 1000;
     slippage_rate := 5 # 10000;
     risk_free_rate := 2 # 100;
     trading_days_per_year := 252 |}.

(** One date of the merged table built by [prepare_data]: the price and
    the raw integer signal. *)
Record Bar : Type := {
  price : Q;
  signal : Z
}.

(** The result frame of [run], column by column. *)
Record Results : Type := {
  market_return : list (option Q);
  position : list Z;
  position_change : list Q;
  trade_cost : list Q;
  strategy_return : list (option Q);
  cumulative_market : list Q;
  cumulative_strategy : list Q;
  strategy_peak : list Q;
  drawdown : list Q
}.

Fixpoint zip_with {A B C : Type} (f : A -> B -> C) (l : list A) (m : list B)
    : list C :=
  match l, m with
  | a :: l', b :: m' => f a b :: zip_with f l' m'
  | _, _ => []
  end.

(** [Series.cumprod()] and [Series.cummax()]. *)
Fixpoint cumprod_from (acc : Q) (l : list Q) : list Q :=
  match l with
  | [] => []
  | x :: t => let a := acc * x in a :: cumprod_from a t
  end.

Definition cumprod (l : list Q) : list Q :=
  match l with
  | [] => []
  | x :: t => x :: cumprod_from x t
  end.

Fixpoint cummax_from (acc : Q) (l : list Q) : list Q :=
  match l with
  | [] => []
  | x :: t => let a := Qmax acc x in a :: cummax_from a t
  end.

Definition cummax (l : list Q) : list Q :=
  match l with
  | [] => []
  | x :: t => x :: cummax_from x t
  end.

(** [signal.shift(1).fillna(0).astype(int)]. *)
Definition lagged_position (signals : list Z) : list Z :=
  map (fun o => match o with Some s => s | None => 0%Z end) (shift signals).

(** [position.diff().abs().fillna(0)]. *)
Definition abs_diff (pos : list Z) : list Q :=
  zip_with (fun cur prev =>
              fillna 0 (option_map (fun p => Qabs (inject_Z (cur - p))) prev))
           pos (shift pos).

Section WithLog.

(** [np.log]; [None] is a NaN result. *)
Variable log : Q -> option Q.

(** [np.log(price / price.shift(1))]; missing at the first date.  (A zero
    previous price gives an infinite float in the source, which the
    rational model does not represent.) *)
Definition log_returns (prices : list Q) : list (option Q) :=
  zip_with (fun p prev =>
              match prev with
              | Some p0 => log (p / p0)
              | None => None
              end)
           prices (shift prices).

(** [VectorBacktester.run] on the merged table. *)
Definition run (config : BacktestConfig) (df : list Bar) : result Results :=
  if (len df <? 2)%Z then Raise ValueError
  else
    let mr := log_returns (map price df) in
    let pos := lagged_position (map signal df) in
    let chg := abs_diff pos in
    let total_cost_rate := commission_rate config + slippage_rate config in
    let cost := map (fun c => c * total_cost_rate) chg in
    let sr :=
      zip_with (fun pm c =>
                  option_map (fun m => inject_Z (fst pm) * m - c) (snd pm))
               (combine pos mr) cost in
    let cm := cumprod (map (fun m => 1 + fillna 0 m) mr) in
    let cs := cumprod (map (fun r => 1 + fillna 0 r) sr) in
    let peak := cummax cs in
    Ok {| market_return := mr;
          position := pos;
          position_change := chg;
          trade_cost := cost;
          strategy_return := sr;
          cumulative_market := cm;
          cumulative_strategy := cs;
          strategy_peak := peak;
          drawdown := zip_with (fun c p => c / p - 1) cs peak |}.

End WithLog.

(** A rational stand-in for [np.log], its first-order expansion at 1,
    used to run [run] on sample tables; the theorems quantify over [log]. *)
Definition log_first_order (x : Q) : option Q := Some (x - 1).

Definition bar (p : Q) (s : Z) : Bar := {| price := p; signal := s |}.

(** A table whose position goes from 0 to 1 at the second date, from
    1 to -1 at the fourth, and back to 1 before the price falls. *)
Definition sample_table : list Bar :=
  [bar 100 1; bar 110 1; bar 121 (-1); bar 110 1; bar 99 0].

(** A configuration without trading costs, and a table whose price never
    moves: its log returns are exactly 0. *)
Definition zero_cost_config : BacktestConfig :=
  {| commission_rate := 0;
     slippage_rate := 0;
     risk_free_rate := 2 # 100;
     trading_days_per_year := 252 |}.

Definition flat_price_table : list Bar :=
  [bar 100 1; bar 100 0; bar 100 0; bar 100 0].

(** *** Trade statistics *)

(** [Series.sum()], which skips missing values. *)
Definition sum_skipna (l : list (option Q)) : Q :=
  fold_right (fun v acc => fillna 0 v + acc) 0 l.

Definition Qsum (l : list Q) : Q := fold_right Qplus 0 l.

(** [ndarray.mean()]. *)
Definition mean (l : list Q) : Q := Qsum l / inject_Z (len l).

(** [df.loc[s:e, col]]: label slicing keeps both ends. *)
Definition loc_slice {A : Type} (col : list A) (s e : nat) : list A :=
  firstn (S e - s) (skipn s col).

(** Dates where [position_change > 0]. *)
Definition trade_indices (df : Results) : list nat :=
  filter (fun i => Qlt_bool 0 (nth i (position_change df) 0))
         (seq 0 (length (position_change df))).

(** [(l[i], l[i+1])] for [i] in [range(len(l) - 1)]. *)
Fixpoint adjacent {A : Type} (l : list A) : list (A * A) :=
  match l with
  | a :: (b :: _) as t => (a, b) :: adjacent t
  | _ => []
  end.

Definition trade_returns (df : Results) : list Q :=
  map (fun se => sum_skipna (loc_slice (strategy_return df) (fst se) (snd se)))
      (adjacent (trade_indices df)).

Definition winners (tr : list Q) : list Q := filter (fun r => Qlt_bool 0 r) tr.
Definition losers (tr : list Q) : list Q := filter (fun r => Qlt_bool r 0) tr.

Definition avg_win (tr : list Q) : Q :=
  if (0 <? len (winners tr))%Z then mean (winners tr) else 0.

Definition avg_loss (tr : list Q) : Q :=
  if (0 <? len (losers tr))%Z then Qabs (mean (losers tr)) else 1.

Definition win_rate (tr : list Q) : Q :=
  if (0 <? len tr)%Z then inject_Z (len (winners tr)) / inject_Z (len tr) else 0.

Definition profit_factor (tr : list Q) : Q :=
  if Qlt_bool 0 (avg_loss tr) then avg_win tr / avg_loss tr else 0.

(** [VectorBacktester._calc_trade_stats]: win rate, profit factor and
    average trade return. *)
Definition _calc_trade_stats (df : Results) : Q * Q * Q :=
  if (len (trade_indices df) <? 2)%Z then (0, 0, 0)
  else
    match trade_returns df with
    | [] => (0, 0, 0)
    | tr => (win_rate tr, profit_factor tr, mean tr)
    end.

(** *** Guarded ratios of [_calculate_metrics]

    The standard deviations, covariance and CAGR are computed with square
    roots and real powers; they enter here as arguments. *)

Definition sharpe_ratio (excess_return volatility : Q) : Q :=
  if Qlt_bool 0 volatility then excess_return / volatility else 0.

Definition sortino_ratio (excess_return downside_std : Q) : Q :=
  if Qlt_bool 0 downside_std then excess_return / downside_std else 0.

Definition calmar_ratio (cagr max_drawdown : Q) : Q :=
  if negb (Qeq_bool max_drawdown 0) then cagr / Qabs max_drawdown else 0.

Definition beta (covariance market_variance : Q) : Q :=
  if Qlt_bool 0 market_variance then covariance / market_variance else 0.

(** [int((position_changes > 0).sum())]. *)
Definition total_trades (df : Results) : Z :=
  len (filter (fun c => Qlt_bool 0 c) (position_change df)).

(** *** Drawdown metrics *)

(** [Series.cumsum()] of a boolean column. *)
Fixpoint cumsum_from (acc : Z) (l : list bool) : list Z :=
  match l with
  | [] => []
  | b :: t =>
      let a := (acc + (if b then 1 else 0))%Z in
      a :: cumsum_from a t
  end.

Definition cumsum (l : list bool) : list Z := cumsum_from 0 l.

(** [vals.groupby(keys).sum()]: for each distinct key, the number of True
    cells of [vals] under it.  (The library orders the groups by key; the
    keys of a running sum are already in order.) *)
Definition group_count (k : Z) (keys : list Z) (vals : list bool) : Z :=
  len (filter (fun kv => (fst kv =? k)%Z && snd kv) (combine keys vals)).

Definition groupby_sum (keys : list Z) (vals : list bool) : list Z :=
  map (fun k => group_count k keys vals) (nodup Z.eq_dec keys).

(** [Series.max()], missing on an empty series. *)
Definition series_max (l : list Z) : option Z :=
  match l with
  | [] => None
  | x :: t => Some (fold_left Z.max t x)
  end.

(** The body of [_calc_max_drawdown_duration] on the [in_drawdown] column. *)
Definition max_run_by_groups (in_drawdown : list bool) : Z :=
  if negb (existsb (fun b => b) in_drawdown) then 0%Z
  else
    let groups := cumsum (map negb in_drawdown) in
    let drawdown_lengths := groupby_sum groups in_drawdown in
    match series_max drawdown_lengths with
    | Some m => m
    | None => 0%Z
    end.

(** [VectorBacktester._calc_max_drawdown_duration]. *)
Definition _calc_max_drawdown_duration (df : Results) : Z :=
  max_run_by_groups (map (fun d => Qlt_bool d 0) (drawdown df)).

(** [df['drawdown'].min()]. *)
Definition max_drawdown (df : Results) : option Q :=
  match drawdown df with
  | [] => None
  | d :: t => Some (fold_left Qmin t d)
  end.

(** Lengths of the maximal runs of True cells of a column, a run between
    every two False cells and at both ends. *)
Fixpoint runs (l : list bool) : list nat :=
  match l with
  | [] => [0%nat]
  | true :: t =>
      match runs t with
      | r :: rs => S r :: rs
      | [] => [1%nat]
      end
  | false :: t => 0%nat :: runs t
  end.

(** *** Preparing the merged table *)

(** [pd.merge(price_df, signals_df[['date', 'signal']], on='date',
    how='left')]: every price row, once per signal row of the same date,
    or once with a missing signal. *)
Definition merge_left (prices : list (Z * Q)) (signals : list (Z * Z))
    : list (Z * Q * option Z) :=
  flat_map (fun dp =>
              match filter (fun ds => (fst ds =? fst dp)%Z) signals with
              | [] => [(fst dp, snd dp, None)]
              | found => map (fun ds => (fst dp, snd dp, Some (snd ds))) found
              end)
           prices.

(** [sort_index()] on the date index, as a stable insertion sort. *)
Fixpoint insert_by_date {R : Type} (row : Z * R) (rows : list (Z * R))
    : list (Z * R) :=
  match rows with
  | [] => [row]
  | r :: t =>
      if (fst row <=? fst r)%Z then row :: rows
      else r :: insert_by_date row t
  end.

Definition sort_index {R : Type} (rows : list (Z * R)) : list (Z * R) :=
  fold_right insert_by_date [] rows.

(** [VectorBacktester.prepare_data]: [price_series] is the dated price
    series read from the store, [signals_df] the dated signals; the rows of
    the result are indexed by date. *)
Definition prepare_data (start_date end_date : option Z)
    (price_series : list (Z * Q)) (signals_df : list (Z * Z))
    : result (list (Z * Bar)) :=
  match price_series with
  | [] => Raise ValueError
  | _ =>
      let merged := merge_left price_series signals_df in
      let filled :=
        map (fun o => match o with Some s => s | None => 0%Z end)
            (ffill (map snd merged)) in
      let df :=
        sort_index
          (zip_with (fun dps s => (fst (fst dps), bar (snd (fst dps)) s))
                    merged filled) in
      let df :=
        match start_date with
        | Some s => filter (fun r => (s <=? fst r)%Z) df
        | None => df
        end in
      let df :=
        match end_date with
        | Some e => filter (fun r => (fst r <=? e)%Z) df
        | None => df
        end in
      Ok df
  end.

Section BacktestWithLog.

Variable log : Q -> option Q.

(** [VectorBacktester.run] from the store's series: prepare, then run. *)
Definition run_from_series (config : BacktestConfig)
    (start_date end_date : option Z)
    (price_series : list (Z * Q)) (signals_df : list (Z * Z))
    : result Results :=
  df <- prepare_data start_date end_date price_series signals_df ;;
  run log config (map snd df).

End BacktestWithLog.

End Backtest.

(** ** views/dashboard.py and utils.py *)

Module Dashboard.

Import Factors.

(** The threshold ladder of [get_signal_display], in its order. *)
Definition get_signal_display (percentile : Q) : Outlook :=
  if Qle_bool percentile (5 # 100) then StrongBullish
  else if Qle_bool percentile (10 # 100) then Bullish
  else if Qle_bool (95 # 100) percentile then StrongBearish
  else if Qle_bool (90 # 100) percentile then Bearish
  else Neutral.

(** The threshold ladder of [get_bar_color] in [plot_regional_bar], read
    as the outlook each colour stands for; the neutral colour of a
    missing percentile is [None]. *)
Definition get_bar_color (pct : option Q) : option Outlook :=
  match pct with
  | None => None
  | Some p =>
      Some (if Qle_bool p (5 # 100) then StrongBullish
            else if Qle_bool (95 # 100) p then StrongBearish
            else if Qle_bool p (10 # 100) then Bullish
            else if Qle_bool (90 # 100) p then Bearish
            else Neutral)
  end.

End Dashboard.

(** * Properties *)

(** ** Comparisons *)

Lemma Qlt_bool_iff (x y : Q) : Qlt_bool x y = true <-> x < y.
Proof.
  unfold Qlt_bool. rewrite negb_true_iff.
  split; intro H.
  - apply Qnot_le_lt. intro Hle.
    apply Qle_bool_iff in Hle. congruence.
  - destruct (Qle_bool y x) eqn:E; [|reflexivity].
    apply Qle_bool_iff in E. exfalso. lra.
Qed.

Lemma Qlt_bool_false_iff (x y : Q) : Qlt_bool x y = false <-> y <= x.
Proof.
  unfold Qlt_bool. rewrite negb_false_iff. apply Qle_bool_iff.
Qed.

(** ** The hysteresis state machine *)

Section Hysteresis.

Import Strategy.

(** C2, as the specification words it, fails: the third and the sixth
    emitted signals are not LONG. *)
Lemma scenario_B_not_as_claimed :
  signals_of (generate_signals default_params scenario_B_scores)
  <> [LONG; LONG; LONG; SHORT; SHORT; LONG].
Proof.
  vm_compute. discriminate.
Qed.

(** C2, amended: with thresholds 0.05 / 0.30 / 0.95 / 0.70 the scores
    [0.03, 0.20, 0.40, 0.96, 0.72, 0.10], starting FLAT, emit
    LONG, LONG, FLAT, SHORT, SHORT, FLAT: 0.40 is above long_exit and
    closes the long, 0.10 is below short_exit but not below long_entry
    and closes the short. *)
Theorem scenario_B_signals :
  signals_of (generate_signals default_params scenario_B_scores)
  = [LONG; LONG; FLAT; SHORT; SHORT; FLAT].
Proof.
  vm_compute. reflexivity.
Qed.

(** The branches taken in scenario B, for the audit trail. *)
Lemma scenario_B_reasons :
  map reason (generate_signals default_params scenario_B_scores)
  = [EnterLong; HoldLong; CloseLong; EnterShort; HoldShort; CloseShort].
Proof.
  vm_compute. reflexivity.
Qed.

(** A score inside the closed entry band leaves a FLAT machine FLAT. *)
Lemma transition_flat_inside (params : BetaStrategyParams) (p : Q) :
  long_entry params <= p -> p <= short_entry params ->
  transition params FLAT p = (FLAT, Watch).
Proof.
  intros Hlo Hhi. unfold transition.
  destruct (Qlt_bool p (long_entry params)) eqn:E1.
  - apply Qlt_bool_iff in E1. lra.
  - destruct (Qlt_bool (short_entry params) p) eqn:E2.
    + apply Qlt_bool_iff in E2. lra.
    + reflexivity.
Qed.

Lemma scan_flat_constant (params : BetaStrategyParams) (p : Q) (n : nat) :
  long_entry params <= p -> p <= short_entry params ->
  signals_of (scan params FLAT (repeat (Some p) n)) = repeat FLAT n.
Proof.
  intros Hlo Hhi. induction n as [|n IH].
  - reflexivity.
  - cbn [repeat scan].
    rewrite (transition_flat_inside params p Hlo Hhi).
    cbn [signals_of map signal]. f_equal. exact IH.
Qed.

(** C9: a constant score strictly between long_entry and short_entry,
    fed to a machine that starts FLAT, keeps it FLAT at every step,
    whatever the length of the sequence. *)
Theorem constant_inside_band_stays_flat
    (params : BetaStrategyParams) (p : Q) (n : nat) :
  long_entry params < p -> p < short_entry params ->
  signals_of (generate_signals params (repeat (Some p) n)) = repeat FLAT n.
Proof.
  intros Hlo Hhi. unfold generate_signals.
  apply scan_flat_constant; lra.
Qed.

(** The default thresholds, the score 0.5, three steps. *)
Lemma constant_inside_band_stays_flat_witness :
  long_entry default_params < 1 # 2 /\
  1 # 2 < short_entry default_params /\
  signals_of (generate_signals default_params (repeat (Some (1 # 2)) 3))
  = repeat FLAT 3.
Proof.
  assert (Hlo : long_entry default_params < 1 # 2) by reflexivity.
  assert (Hhi : 1 # 2 < short_entry default_params) by reflexivity.
  split; [exact Hlo|]. split; [exact Hhi|].
  exact (constant_inside_band_stays_flat default_params (1 # 2) 3 Hlo Hhi).
Defined.

End Hysteresis.

(** ** Columns: shifting, zipping, scanning *)

Section Columns.

Import Backtest.

Context {A B C : Type}.

Lemma shift_length (l : list A) : length (shift l) = length l.
Proof.
  unfold shift. rewrite length_firstn. simpl. rewrite length_map. lia.
Qed.

Lemma nth_error_shift_0 (a : A) (l : list A) :
  nth_error (shift (a :: l)) 0 = Some None.
Proof. reflexivity. Qed.

Lemma nth_error_shift_S (l : list A) (t : nat) :
  (S t < length l)%nat ->
  nth_error (shift l) (S t) = option_map Some (nth_error l t).
Proof.
  intro Ht. unfold shift.
  rewrite nth_error_firstn.
  destruct (Nat.ltb_spec (S t) (length l)) as [_|Hge]; [|lia].
  simpl. apply nth_error_map.
Qed.

Lemma zip_with_length (f : A -> B -> C) (l : list A) (m : list B) :
  length (zip_with f l m) = Nat.min (length l) (length m).
Proof.
  revert m. induction l as [|a l IH]; intros [|b m]; simpl; auto.
Qed.

Lemma nth_error_zip_with (f : A -> B -> C) (l : list A) (m : list B) (t : nat) :
  nth_error (zip_with f l m) t =
  match nth_error l t, nth_error m t with
  | Some a, Some b => Some (f a b)
  | _, _ => None
  end.
Proof.
  revert m t. induction l as [|a l IH]; intros [|b m] [|t]; simpl; auto.
  - destruct (nth_error l t); reflexivity.
Qed.

End Columns.

Lemma nth_error_nth_default {A : Type} (l : list A) (t : nat) (d x : A) :
  nth_error l t = Some x -> nth t l d = x.
Proof.
  intro H. apply nth_error_nth. exact H.
Qed.

Section Scans.

Import Backtest.

Lemma cumprod_from_length (l : list Q) (acc : Q) :
  length (cumprod_from acc l) = length l.
Proof.
  revert acc. induction l as [|x l IH]; intro acc; simpl; auto.
Qed.

Lemma cumprod_length (l : list Q) : length (cumprod l) = length l.
Proof.
  destruct l; simpl; auto using cumprod_from_length.
Qed.

Lemma cummax_from_length (l : list Q) (acc : Q) :
  length (cummax_from acc l) = length l.
Proof.
  revert acc. induction l as [|x l IH]; intro acc; simpl; auto.
Qed.

Lemma cummax_length (l : list Q) : length (cummax l) = length l.
Proof.
  destruct l; simpl; auto using cummax_from_length.
Qed.

(** The running maximum started at [acc]: at every position it bounds
    [acc] and every element seen so far, and it is one of them. *)
Lemma cummax_from_spec (l : list Q) :
  forall (acc : Q) (k : nat) (v : Q),
    nth_error (cummax_from acc l) k = Some v ->
    acc <= v /\
    (forall j x, (j <= k)%nat -> nth_error l j = Some x -> x <= v) /\
    (v == acc \/ exists j x, (j <= k)%nat /\ nth_error l j = Some x /\ v == x).
Proof.
  induction l as [|y l IH]; intros acc k v Hk.
  - destruct k; discriminate.
  - simpl in Hk. destruct k as [|k].
    + injection Hk as <-. split; [apply Q.le_max_l|]. split.
      * intros j x Hj Hx. destruct j; [|lia].
        injection Hx as <-. apply Q.le_max_r.
      * destruct (Q.max_spec acc y) as [[_ E]|[_ E]].
        -- right. exists 0%nat, y. repeat split; auto.
        -- left. exact E.
    + simpl in Hk. destruct (IH _ _ _ Hk) as (Hacc & Hall & Hin).
      assert (Hl : acc <= Qmax acc y) by apply Q.le_max_l.
      assert (Hr : y <= Qmax acc y) by apply Q.le_max_r.
      split; [lra|]. split.
      * intros j x Hj Hx. destruct j as [|j].
        -- injection Hx as <-. lra.
        -- apply (Hall j x); [lia|exact Hx].
      * destruct Hin as [E|(j & x & Hj & Hx & E)].
        -- destruct (Q.max_spec acc y) as [[_ E']|[_ E']].
           ++ right. exists 0%nat, y. repeat split; [lia|].
              rewrite E. exact E'.
           ++ left. rewrite E. exact E'.
        -- right. exists (S j), x. repeat split; [lia|exact Hx|exact E].
Qed.

(** [cummax] is the running maximum of the column. *)
Lemma cummax_spec (l : list Q) (k : nat) (v : Q) :
  nth_error (cummax l) k = Some v ->
  (forall j x, (j <= k)%nat -> nth_error l j = Some x -> x <= v) /\
  (exists j x, (j <= k)%nat /\ nth_error l j = Some x /\ v == x).
Proof.
  destruct l as [|y l]; [destruct k; discriminate|].
  destruct k as [|k]; simpl; intro Hk.
  - injection Hk as <-. split.
    + intros j x Hj Hx. destruct j; [|lia]. injection Hx as <-. lra.
    + exists 0%nat, y. repeat split; try reflexivity; auto.
  - destruct (cummax_from_spec _ _ _ _ Hk) as (Hacc & Hall & Hin). split.
    + intros j x Hj Hx. destruct j as [|j].
      * injection Hx as <-. exact Hacc.
      * apply (Hall j x); [lia|exact Hx].
    + destruct Hin as [E|(j & x & Hj & Hx & E)].
      * exists 0%nat, y. repeat split; [lia|exact E].
      * exists (S j), x. repeat split; [lia|exact Hx|exact E].
Qed.

End Scans.

(** ** The execution lag *)

Section ExecutionLag.

Import Backtest.

Lemma lagged_position_length (signals : list Z) :
  length (lagged_position signals) = length signals.
Proof.
  unfold lagged_position. rewrite length_map. apply shift_length.
Qed.

Lemma lagged_position_first (s : Z) (signals : list Z) :
  nth_error (lagged_position (s :: signals)) 0 = Some 0%Z.
Proof. reflexivity. Qed.

Lemma lagged_position_next (signals : list Z) (t : nat) :
  (S t < length signals)%nat ->
  nth_error (lagged_position signals) (S t) = nth_error signals t.
Proof.
  intro Ht. unfold lagged_position.
  rewrite nth_error_map, (nth_error_shift_S _ _ Ht).
  destruct (nth_error signals t); reflexivity.
Qed.

(** The position at date [t] reads the signal column strictly before [t]. *)
Lemma lagged_position_prefix (signals signals' : list Z) (t : nat) :
  firstn t signals = firstn t signals' ->
  (t < length signals)%nat -> (t < length signals')%nat ->
  nth_error (lagged_position signals) t = nth_error (lagged_position signals') t.
Proof.
  intros Hpre Ht Ht'. destruct t as [|t].
  - destruct signals, signals'; simpl in *; try lia. reflexivity.
  - rewrite !lagged_position_next by assumption.
    assert (Hcut : forall l : list Z,
               nth_error l t = nth_error (firstn (S t) l) t).
    { intro l. rewrite nth_error_firstn.
      destruct (Nat.ltb_spec t (S t)); [reflexivity|lia]. }
    rewrite (Hcut signals), (Hcut signals'), Hpre. reflexivity.
Qed.

Variable log : Q -> option Q.

Lemma run_position (config : BacktestConfig) (df : list Bar) (res : Results) :
  run log config df = Ok res ->
  (2 <= length df)%nat /\ position res = lagged_position (map signal df).
Proof.
  unfold run, len. destruct (Z.ltb_spec (Z.of_nat (length df)) 2) as [Hlt|Hge].
  - discriminate.
  - intro H. injection H as <-. split; [lia|reflexivity].
Qed.

Lemma run_total (config : BacktestConfig) (df : list Bar) :
  (2 <= length df)%nat -> exists res, run log config df = Ok res.
Proof.
  intro Hlen. unfold run, len.
  destruct (Z.ltb_spec (Z.of_nat (length df)) 2) as [Hlt|Hge]; [lia|].
  eexists. reflexivity.
Qed.

(** C1: a backtest over a merged table of at least two dates returns a
    result frame whose executed position is 0 at the first date and, at
    every later date, the raw signal of the date before; so two tables
    that agree strictly before date [t] (the second one with any prices
    and signals from [t] on) give the same executed position at [t]. *)
Theorem execution_lag_no_lookahead (config : BacktestConfig) (df : list Bar) :
  (2 <= length df)%nat ->
  exists res,
    run log config df = Ok res /\
    length (position res) = length df /\
    nth_error (position res) 0 = Some 0%Z /\
    (forall t, (S t < length df)%nat ->
       nth_error (position res) (S t) = nth_error (map signal df) t) /\
    (forall (df' : list Bar) (res' : Results) (t : nat),
       run log config df' = Ok res' ->
       length df' = length df ->
       (t < length df)%nat ->
       firstn t df' = firstn t df ->
       nth_error (position res') t = nth_error (position res) t).
Proof.
  intro Hlen. destruct (run_total config df Hlen) as [res Hres].
  exists res. split; [exact Hres|].
  destruct (run_position _ _ _ Hres) as [_ Hpos]. rewrite Hpos.
  split; [rewrite lagged_position_length; apply length_map|].
  split.
  - destruct df as [|b df]; [simpl in Hlen; lia|]. reflexivity.
  - split.
    + intros t Ht. apply lagged_position_next. rewrite length_map. exact Ht.
    + intros df' res' t Hres' Hlen' Ht Hpre.
      destruct (run_position _ _ _ Hres') as [_ Hpos']. rewrite Hpos'.
      apply lagged_position_prefix.
      * rewrite !firstn_map. rewrite Hpre. reflexivity.
      * rewrite length_map. lia.
      * rewrite length_map. lia.
Qed.

End ExecutionLag.

(** ** Returns and transaction costs *)

Section CostModel.

Import Backtest.

Lemma nth_error_combine {A B : Type} (l : list A) (m : list B) (t : nat) :
  nth_error (combine l m) t =
  match nth_error l t, nth_error m t with
  | Some a, Some b => Some (a, b)
  | _, _ => None
  end.
Proof.
  revert m t. induction l as [|a l IH]; intros [|b m] [|t]; simpl; auto.
  destruct (nth_error l t); reflexivity.
Qed.

Lemma abs_diff_length (pos : list Z) : length (abs_diff pos) = length pos.
Proof.
  unfold abs_diff. rewrite zip_with_length, shift_length. lia.
Qed.

Lemma abs_diff_first (p : Z) (pos : list Z) :
  nth_error (abs_diff (p :: pos)) 0 = Some 0.
Proof. reflexivity. Qed.

Lemma abs_diff_next (pos : list Z) (t : nat) (p q : Z) :
  nth_error pos t = Some p -> nth_error pos (S t) = Some q ->
  nth_error (abs_diff pos) (S t) = Some (Qabs (inject_Z (q - p))).
Proof.
  intros Hp Hq. unfold abs_diff.
  assert (Ht : (S t < length pos)%nat).
  { apply nth_error_Some. congruence. }
  rewrite nth_error_zip_with, Hq, (nth_error_shift_S _ _ Ht), Hp.
  reflexivity.
Qed.

Variable log : Q -> option Q.

Lemma log_returns_length (prices : list Q) :
  length (log_returns log prices) = length prices.
Proof.
  unfold log_returns. rewrite zip_with_length, shift_length. lia.
Qed.

Lemma log_returns_first (p : Q) (prices : list Q) :
  nth_error (log_returns log (p :: prices)) 0 = Some None.
Proof. reflexivity. Qed.

(** The vectorised body of [run], one column after the other. *)
Lemma run_columns (config : BacktestConfig) (df : list Bar) (res : Results) :
  run log config df = Ok res ->
  market_return res = log_returns log (map price df) /\
  position_change res = abs_diff (position res) /\
  trade_cost res =
    map (fun c => c * (commission_rate config + slippage_rate config))
        (position_change res) /\
  strategy_return res =
    zip_with (fun pm c =>
                option_map (fun m => inject_Z (fst pm) * m - c) (snd pm))
             (combine (position res) (market_return res)) (trade_cost res) /\
  cumulative_strategy res =
    cumprod (map (fun r => 1 + fillna 0 r) (strategy_return res)) /\
  strategy_peak res = cummax (cumulative_strategy res) /\
  drawdown res =
    zip_with (fun c p => c / p - 1)
             (cumulative_strategy res) (strategy_peak res).
Proof.
  unfold run. destruct (len df <? 2)%Z; [discriminate|].
  intro H. injection H as <-. cbn. repeat split.
Qed.

Lemma run_lengths (config : BacktestConfig) (df : list Bar) (res : Results) :
  run log config df = Ok res ->
  length (market_return res) = length df /\
  length (position res) = length df /\
  length (position_change res) = length df /\
  length (trade_cost res) = length df /\
  length (strategy_return res) = length df /\
  length (cumulative_strategy res) = length df /\
  length (strategy_peak res) = length df /\
  length (drawdown res) = length df.
Proof.
  intro Hres.
  destruct (run_position log _ _ _ Hres) as [_ Hpos].
  destruct (run_columns _ _ _ Hres) as (Hmr & Hchg & Hcost & Hsr & Hcs & Hpk & Hdd).
  assert (L1 : length (market_return res) = length df).
  { rewrite Hmr, log_returns_length. apply length_map. }
  assert (L2 : length (position res) = length df).
  { rewrite Hpos, lagged_position_length. apply length_map. }
  assert (L3 : length (position_change res) = length df).
  { rewrite Hchg, abs_diff_length. exact L2. }
  assert (L4 : length (trade_cost res) = length df).
  { rewrite Hcost, length_map. exact L3. }
  assert (L5 : length (strategy_return res) = length df).
  { rewrite Hsr, zip_with_length, length_combine. lia. }
  assert (L6 : length (cumulative_strategy res) = length df).
  { rewrite Hcs, cumprod_length, length_map. exact L5. }
  assert (L7 : length (strategy_peak res) = length df).
  { rewrite Hpk, cummax_length. exact L6. }
  repeat split; try assumption.
  rewrite Hdd, zip_with_length. lia.
Qed.

(** The cost charged at a date, from the positions around it. *)
Lemma run_cost_first (config : BacktestConfig) (df : list Bar) (res : Results) :
  run log config df = Ok res ->
  nth 0 (trade_cost res) 0 == 0.
Proof.
  intro Hres.
  destruct (run_position log _ _ _ Hres) as [Hlen Hpos].
  destruct (run_columns _ _ _ Hres) as (_ & Hchg & Hcost & _).
  rewrite Hcost, Hchg, Hpos.
  destruct df as [|b df]; [simpl in Hlen; lia|].
  cbn. ring.
Qed.

Lemma run_cost_next (config : BacktestConfig) (df : list Bar) (res : Results)
    (t : nat) :
  run log config df = Ok res ->
  (S t < length df)%nat ->
  nth (S t) (trade_cost res) 0 =
  Qabs (inject_Z (nth (S t) (position res) 0%Z - nth t (position res) 0%Z))
  * (commission_rate config + slippage_rate config).
Proof.
  intros Hres Ht.
  destruct (run_lengths _ _ _ Hres) as (_ & Lpos & _).
  destruct (run_columns _ _ _ Hres) as (_ & Hchg & Hcost & _).
  apply nth_error_nth_default.
  rewrite Hcost, nth_error_map, Hchg.
  rewrite (abs_diff_next _ t (nth t (position res) 0%Z)
                         (nth (S t) (position res) 0%Z)).
  - reflexivity.
  - apply nth_error_nth'. lia.
  - apply nth_error_nth'. lia.
Qed.

Lemma run_strategy_return (config : BacktestConfig) (df : list Bar)
    (res : Results) (t : nat) :
  run log config df = Ok res ->
  (t < length df)%nat ->
  nth t (strategy_return res) None =
  option_map (fun m => inject_Z (nth t (position res) 0%Z) * m
                       - nth t (trade_cost res) 0)
             (nth t (market_return res) None).
Proof.
  intros Hres Ht.
  destruct (run_lengths _ _ _ Hres) as (Lmr & Lpos & _ & Lcost & _).
  destruct (run_columns _ _ _ Hres) as (_ & _ & _ & Hsr & _).
  apply nth_error_nth_default.
  rewrite Hsr at 1. rewrite nth_error_zip_with, nth_error_combine.
  rewrite (nth_error_nth' (position res) 0%Z) by lia.
  rewrite (nth_error_nth' (market_return res) None) by lia.
  rewrite (nth_error_nth' (trade_cost res) 0) by lia.
  reflexivity.
Qed.

End CostModel.

Section CostClaims.

Import Backtest.

Variable log : Q -> option Q.

(** C4: in every backtest the cost charged at a date is
    |position(t) - position(t-1)| * (commission_rate + slippage_rate)
    (nothing at the first date, which has no predecessor), and the
    strategy return is position * market_return minus that cost (missing
    where the market return is missing).  With commission 0.001 and
    slippage 0.0005 a change of position from 0 to 1 costs 0.0015 and the
    strategy return of that date is the market return minus 0.0015; a flip
    from +1 to -1 is charged on a change of magnitude 2. *)
Theorem transaction_cost_model (config : BacktestConfig) (df : list Bar) :
  (2 <= length df)%nat ->
  exists res,
    run log config df = Ok res /\
    let rate := commission_rate config + slippage_rate config in
    let pos := fun t => nth t (position res) 0%Z in
    let cost := fun t => nth t (trade_cost res) 0 in
    let mkt := fun t => nth t (market_return res) None in
    let ret := fun t => nth t (strategy_return res) None in
    cost 0%nat == 0 /\
    (forall t, (S t < length df)%nat ->
       cost (S t) == Qabs (inject_Z (pos (S t) - pos t)) * rate) /\
    (forall t, (t < length df)%nat ->
       ret t = option_map (fun m => inject_Z (pos t) * m - cost t) (mkt t)) /\
    (forall t m, (S t < length df)%nat ->
       commission_rate config == 1 # 1000 ->
       slippage_rate config == 5 # 10000 ->
       pos t = 0%Z -> pos (S t) = 1%Z -> mkt (S t) = Some m ->
       cost (S t) == 15 # 10000 /\
       exists r, ret (S t) = Some r /\ r == m - (15 # 10000)) /\
    (forall t, (S t < length df)%nat ->
       pos t = 1%Z -> pos (S t) = (-1)%Z -> cost (S t) == 2 * rate).
Proof.
  intro Hlen. destruct (run_total log config df Hlen) as [res Hres].
  exists res. split; [exact Hres|]. cbv zeta.
  split; [exact (run_cost_first log _ _ _ Hres)|].
  split.
  { intros t Ht. rewrite (run_cost_next log _ _ _ t Hres Ht). reflexivity. }
  split.
  { intros t Ht. exact (run_strategy_return log _ _ _ t Hres Ht). }
  split.
  - intros t m Ht Hc Hs H0 H1 Hm.
    assert (Hcost : nth (S t) (trade_cost res) 0 == 15 # 10000).
    { rewrite (run_cost_next log _ _ _ t Hres Ht), H0, H1, Hc, Hs.
      reflexivity. }
    split; [exact Hcost|].
    rewrite (run_strategy_return log _ _ _ (S t) Hres Ht), Hm, H1.
    cbn [option_map]. eexists. split; [reflexivity|].
    rewrite Hcost. ring.
  - intros t Ht H1 Hm1.
    rewrite (run_cost_next log _ _ _ t Hres Ht), H1, Hm1. reflexivity.
Qed.

End CostClaims.

(** On the sample table with the default costs: 0.0015 at the entry,
    0.0030 at the flip. *)
Lemma transaction_cost_model_witness :
  (2 <= length Backtest.sample_table)%nat /\
  exists res,
    Backtest.run Backtest.log_first_order Backtest.default_config
                 Backtest.sample_table = Ok res /\
    nth 1 (Backtest.trade_cost res) 0 == 15 # 10000 /\
    nth 3 (Backtest.trade_cost res) 0 == 2 * (15 # 10000).
Proof.
  assert (Hlen : (2 <= length Backtest.sample_table)%nat) by (simpl; lia).
  split; [exact Hlen|].
  destruct (transaction_cost_model Backtest.log_first_order
              Backtest.default_config Backtest.sample_table Hlen)
    as (res & Hres & _ & Hcost & _).
  exists res. split; [exact Hres|].
  assert (Hpos : Backtest.position res = [0; 1; 1; -1; 1]%Z).
  { vm_compute in Hres. injection Hres as <-. reflexivity. }
  split.
  - rewrite (Hcost 0%nat) by (simpl; lia). rewrite Hpos. reflexivity.
  - rewrite (Hcost 2%nat) by (simpl; lia). rewrite Hpos. reflexivity.
Defined.

(** ** Equity and drawdown *)

Section Drawdown.

Import Backtest.

Variable log : Q -> option Q.

(** The first market return is missing, so the equity curve starts at 1. *)
Lemma run_equity_first (config : BacktestConfig) (df : list Bar) (res : Results) :
  run log config df = Ok res ->
  nth 0 (cumulative_strategy res) 0 == 1.
Proof.
  intro Hres.
  destruct (run_position log _ _ _ Hres) as [Hlen _].
  destruct (run_lengths log _ _ _ Hres) as (_ & _ & _ & _ & Lsr & _).
  destruct (run_columns log _ _ _ Hres) as (Hmr & _ & _ & _ & Hcs & _).
  assert (H0 : nth 0 (strategy_return res) None = None).
  { rewrite (run_strategy_return log _ _ _ 0%nat Hres) by lia.
    rewrite Hmr. destruct df as [|b df]; [simpl in Hlen; lia|]. reflexivity. }
  rewrite Hcs. destruct (strategy_return res) as [|r sr].
  - simpl in Lsr. lia.
  - simpl in H0. subst r. cbn. ring.
Qed.

(** C7: at every date of every backtest, the drawdown is
    equity / running maximum of the equity so far - 1, it is at most 0,
    and it is 0 when the equity of that date is a running maximum. *)
Theorem drawdown_nonpositive (config : BacktestConfig) (df : list Bar) :
  (2 <= length df)%nat ->
  exists res,
    run log config df = Ok res /\
    forall t, (t < length df)%nat ->
      let equity := fun s => nth s (cumulative_strategy res) 0 in
      let peak := nth t (strategy_peak res) 0 in
      let dd := nth t (drawdown res) 0 in
      dd = equity t / peak - 1 /\
      (forall s, (s <= t)%nat -> equity s <= peak) /\
      (exists s, (s <= t)%nat /\ peak == equity s) /\
      dd <= 0 /\
      ((forall s, (s <= t)%nat -> equity s <= equity t) -> dd == 0).
Proof.
  intro Hlen. destruct (run_total log config df Hlen) as [res Hres].
  exists res. split; [exact Hres|]. intros t Ht. cbv zeta.
  destruct (run_lengths log _ _ _ Hres)
    as (_ & _ & _ & _ & _ & Lcs & Lpk & Ldd).
  destruct (run_columns log _ _ _ Hres) as (_ & _ & _ & _ & _ & Hpk & Hdd).
  pose proof (run_equity_first _ _ _ Hres) as Hfirst.
  set (cs := cumulative_strategy res) in *.
  set (pk := strategy_peak res) in *.
  assert (Hcell : nth_error pk t = Some (nth t pk 0)).
  { apply nth_error_nth'. lia. }
  rewrite Hpk in Hcell at 1.
  destruct (cummax_spec _ _ _ Hcell) as [Hub Hin].
  assert (Hbound : forall s, (s <= t)%nat -> nth s cs 0 <= nth t pk 0).
  { intros s Hs. apply (Hub s). exact Hs. apply nth_error_nth'. lia. }
  assert (Hattained : exists s, (s <= t)%nat /\ nth t pk 0 == nth s cs 0).
  { destruct Hin as (j & x & Hj & Hx & E). exists j. split; [exact Hj|].
    rewrite (nth_error_nth_default _ _ 0 _ Hx). exact E. }
  assert (Hpos : 0 < nth t pk 0).
  { pose proof (Hbound 0%nat (Nat.le_0_l t)). lra. }
  assert (Hdd_eq : nth t (drawdown res) 0 = nth t cs 0 / nth t pk 0 - 1).
  { apply nth_error_nth_default. rewrite Hdd, nth_error_zip_with.
    fold cs pk.
    rewrite (nth_error_nth' cs 0) by lia.
    rewrite (nth_error_nth' pk 0) by lia. reflexivity. }
  split; [exact Hdd_eq|]. split; [exact Hbound|]. split; [exact Hattained|].
  rewrite Hdd_eq. split.
  - assert (nth t cs 0 / nth t pk 0 <= 1).
    { apply Qle_shift_div_r; [exact Hpos|].
      pose proof (Hbound t (Nat.le_refl t)). lra. }
    lra.
  - intro Hmax. destruct Hattained as (s & Hs & E).
    assert (Heq : nth t pk 0 == nth t cs 0).
    { apply Qle_antisym.
      - rewrite E. apply Hmax. exact Hs.
      - apply Hbound. lia. }
    rewrite Heq. field. rewrite <- Heq. lra.
Qed.

End Drawdown.

(** On the sample table, at its last date. *)
Lemma drawdown_nonpositive_witness :
  (2 <= length Backtest.sample_table)%nat /\
  exists res,
    Backtest.run Backtest.log_first_order Backtest.default_config
                 Backtest.sample_table = Ok res /\
    nth 4 (Backtest.drawdown res) 0 <= 0.
Proof.
  assert (Hlen : (2 <= length Backtest.sample_table)%nat) by (simpl; lia).
  split; [exact Hlen|].
  destruct (drawdown_nonpositive Backtest.log_first_order
              Backtest.default_config Backtest.sample_table Hlen)
    as (res & Hres & Hall).
  exists res. split; [exact Hres|].
  apply (Hall 4%nat). simpl. lia.
Defined.

(** On the sample table: flat at the first date, short at the fourth,
    after the short signal of the third. *)
Lemma execution_lag_no_lookahead_witness :
  (2 <= length Backtest.sample_table)%nat /\
  exists res,
    Backtest.run Backtest.log_first_order Backtest.default_config
                 Backtest.sample_table = Ok res /\
    nth_error (Backtest.position res) 0 = Some 0%Z /\
    nth_error (Backtest.position res) 3 = Some (-1)%Z.
Proof.
  assert (Hlen : (2 <= length Backtest.sample_table)%nat) by (simpl; lia).
  split; [exact Hlen|].
  destruct (execution_lag_no_lookahead Backtest.log_first_order
              Backtest.default_config Backtest.sample_table Hlen)
    as (res & Hres & _ & H0 & Hnext & _).
  exists res. split; [exact Hres|]. split; [exact H0|].
  rewrite (Hnext 2%nat) by (simpl; lia). reflexivity.
Defined.

(** ** The fallible loop *)

Section MapM.

Context {A B : Type}.
Variable f : A -> result B.

Lemma mapM_total (l : list A) :
  (forall a, In a l -> exists b, f a = Ok b) ->
  exists bs, mapM f l = Ok bs.
Proof.
  induction l as [|a l IH]; intro Hall.
  - exists []. reflexivity.
  - destruct (Hall a (or_introl eq_refl)) as [b Hb].
    destruct IH as [bs Hbs].
    { intros a' Ha'. apply Hall. right. exact Ha'. }
    exists (b :: bs). simpl. rewrite Hb. simpl. rewrite Hbs. reflexivity.
Qed.

Lemma mapM_inv (l : list A) :
  forall bs, mapM f l = Ok bs ->
    length bs = length l /\
    forall i a, nth_error l i = Some a ->
      exists b, nth_error bs i = Some b /\ f a = Ok b.
Proof.
  induction l as [|a l IH]; intros bs H; simpl in H.
  - injection H as <-. split; [reflexivity|].
    intros [|i] a' Ha'; discriminate.
  - destruct (f a) as [b|e] eqn:Hb; [|discriminate]. simpl in H.
    destruct (mapM f l) as [bs'|e] eqn:Hbs; [|discriminate]. simpl in H.
    injection H as <-. destruct (IH bs' eq_refl) as [Hlen Hcells].
    split; [simpl; congruence|].
    intros [|i] a' Ha'; simpl in *.
    + injection Ha' as <-. exists b. split; [reflexivity|exact Hb].
    + apply Hcells. exact Ha'.
Qed.

Lemma mapM_raise (l : list A) (e : exn) :
  (forall a, In a l -> f a = Raise e) -> l <> [] -> mapM f l = Raise e.
Proof.
  intros Hall Hne. destruct l as [|a l]; [congruence|].
  simpl. rewrite (Hall a (or_introl eq_refl)). reflexivity.
Qed.

End MapM.

(** ** The rolling percentile *)

Section Percentile.

Import Factors.

Lemma window_at_length {A : Type} (series : list A) (w i : nat) :
  (i < length series)%nat ->
  length (window_at series w i) = Nat.min (S i) w.
Proof.
  intro Hi. unfold window_at. rewrite length_skipn, length_firstn. lia.
Qed.

Lemma window_at_In {A : Type} (series : list A) (w i : nat) (a : A) :
  In a (window_at series w i) -> In a series.
Proof.
  unfold window_at. intro H.
  rewrite <- (firstn_skipn (S i) series). apply in_or_app. left.
  rewrite <- (firstn_skipn (S i - w) (firstn (S i) series)).
  apply in_or_app. right. exact H.
Qed.

Lemma iloc_last_nonempty {A : Type} (x : list A) :
  x <> [] -> exists c, iloc_last x = Some c.
Proof.
  induction x as [|a x IH]; intro Hne; [congruence|].
  destruct x as [|b x].
  - exists a. reflexivity.
  - destruct IH as [c Hc]; [discriminate|]. exists c. exact Hc.
Qed.

Lemma iloc_last_In {A : Type} (x : list A) (c : A) :
  iloc_last x = Some c -> In c x.
Proof.
  induction x as [|a x IH]; intro H; [discriminate|].
  destruct x as [|b x].
  - injection H as <-. left. reflexivity.
  - right. apply IH. exact H.
Qed.

(** A filter that rejects the last element keeps fewer elements than
    the list has. *)
Lemma filter_rejects_last {A : Type} (p : A -> bool) (x : list A) (c : A) :
  iloc_last x = Some c -> p c = false ->
  (length (filter p x) < length x)%nat.
Proof.
  induction x as [|a x IH]; intros Hlast Hp; [discriminate|].
  destruct x as [|b x].
  - injection Hlast as <-. simpl. rewrite Hp. simpl. lia.
  - specialize (IH Hlast Hp).
    change (filter p (a :: b :: x))
      with (if p a then a :: filter p (b :: x) else filter p (b :: x)).
    destruct (p a); simpl in *; lia.
Qed.

Lemma lt_scalar_irrefl (c : option Q) : lt_scalar c c = false.
Proof.
  destruct c as [q|]; [|reflexivity]. simpl.
  apply Qlt_bool_false_iff. lra.
Qed.

(** The strict-less rank of the current value is at most the window
    size minus one. *)
Lemma rank_of_bounds (x : list (option Q)) (cur : option Q) :
  iloc_last x = Some cur ->
  (0 <= rank_of x cur <= len x - 1)%Z.
Proof.
  intro Hlast. unfold rank_of, len.
  pose proof (filter_rejects_last (lt_scalar cur) x cur Hlast
                (lt_scalar_irrefl cur)).
  lia.
Qed.

Lemma rank_fraction_bounds (x : list (option Q)) (cur : option Q) :
  iloc_last x = Some cur ->
  0 <= rank_fraction x cur <= 1.
Proof.
  intro Hlast. unfold rank_fraction.
  pose proof (rank_of_bounds x cur Hlast) as [Hlo Hhi].
  destruct (Z.ltb_spec 1 (len x)) as [Hn|Hn].
  - assert (Hden : 0 < inject_Z (len x - 1)).
    { change 0 with (inject_Z 0). rewrite <- Zlt_Qlt. lia. }
    split.
    + apply Qle_shift_div_l; [exact Hden|].
      rewrite Qmult_0_l. change 0 with (inject_Z 0).
      rewrite <- Zle_Qle. exact Hlo.
    + apply Qle_shift_div_r; [exact Hden|].
      rewrite Qmult_1_l. rewrite <- Zle_Qle. exact Hhi.
  - split; [discriminate|discriminate].
Qed.

Lemma iloc_last_skipn {A : Type} (k : nat) :
  forall l : list A, (k < length l)%nat -> iloc_last (skipn k l) = iloc_last l.
Proof.
  induction k as [|k IH]; intros l Hk; [reflexivity|].
  destruct l as [|a l]; [simpl in Hk; lia|].
  simpl in Hk. cbn [skipn]. rewrite IH by lia.
  destruct l; [simpl in Hk; lia|reflexivity].
Qed.

Lemma iloc_last_firstn {A : Type} (i : nat) :
  forall l : list A, (i < length l)%nat ->
    iloc_last (firstn (S i) l) = nth_error l i.
Proof.
  induction i as [|i IH]; intros l Hi.
  - destruct l as [|a l]; [simpl in Hi; lia|]. reflexivity.
  - destruct l as [|a l]; [simpl in Hi; lia|].
    simpl in Hi. cbn [nth_error]. rewrite <- IH by lia.
    destruct l as [|b l]; [simpl in Hi; lia|]. reflexivity.
Qed.

(** The last element of the slice at position [i] is the value at [i]:
    the "current" value of the closure. *)
Lemma window_at_current {A : Type} (series : list A) (w i : nat) :
  (1 <= w)%nat -> (i < length series)%nat ->
  iloc_last (window_at series w i) = nth_error series i.
Proof.
  intros Hw Hi. unfold window_at.
  rewrite iloc_last_skipn by (rewrite length_firstn; lia).
  apply iloc_last_firstn. exact Hi.
Qed.

(** The inner guard [len(x) < window * 0.5], on integers. *)
Lemma half_window_guard (n window : Z) :
  Qlt_bool (inject_Z n) (inject_Z window * (1 # 2)) = true <-> (2 * n < window)%Z.
Proof.
  rewrite Qlt_bool_iff. unfold Qlt. cbn -[Z.mul]. lia.
Qed.

Lemma calc_pct_null (window : Z) (x : list (option Q)) :
  (2 * len x < window)%Z -> calc_pct window x = Ok None.
Proof.
  intro H. unfold calc_pct.
  apply half_window_guard in H. rewrite H. reflexivity.
Qed.

Lemma calc_pct_value (window : Z) (x : list (option Q)) (cur : option Q) :
  (window <= 2 * len x)%Z -> iloc_last x = Some cur ->
  calc_pct window x = Ok (Some (rank_fraction x cur)).
Proof.
  intros H Hlast. unfold calc_pct.
  destruct (Qlt_bool (inject_Z (len x)) (inject_Z window * (1 # 2))) eqn:E.
  - apply half_window_guard in E. lia.
  - rewrite Hlast. reflexivity.
Qed.

(** A non-missing value returned by the closure is the rank fraction of
    the last element of the slice. *)
Lemma calc_pct_inv (window : Z) (x : list (option Q)) (v : Q) :
  calc_pct window x = Ok (Some v) ->
  exists cur, iloc_last x = Some cur /\ v = rank_fraction x cur.
Proof.
  unfold calc_pct.
  destruct (Qlt_bool (inject_Z (len x)) (inject_Z window * (1 # 2)));
    [discriminate|].
  destruct (iloc_last x) as [cur|] eqn:Hlast; [|discriminate].
  intro H. injection H as <-. exists cur. split; reflexivity.
Qed.

Lemma rank_fraction_single (x : list (option Q)) (cur : option Q) :
  len x = 1%Z -> rank_fraction x cur = 1 # 2.
Proof.
  intro H. unfold rank_fraction. rewrite H. reflexivity.
Qed.

End Percentile.

Section RollingCells.

Import Factors.

Lemma nth_error_seq_0 (n i : nat) :
  (i < n)%nat -> nth_error (seq 0 n) i = Some i.
Proof.
  intro Hi. rewrite (nth_error_nth' (seq 0 n) 0%nat) by (rewrite length_seq; exact Hi).
  rewrite seq_nth by exact Hi. reflexivity.
Qed.

(** What one position of the rolling loop yields on a slice that has a
    last element. *)
Lemma rolling_cell (window min_periods : Z) (x : list (option Q))
    (cur : option Q) :
  iloc_last x = Some cur ->
  (if (min_periods <=? count_valid x)%Z then calc_pct window x else Ok None)
  = Ok (if ((min_periods <=? count_valid x) && (window <=? 2 * len x))%Z
        then Some (rank_fraction x cur) else None).
Proof.
  intro Hlast.
  destruct (min_periods <=? count_valid x)%Z; [|reflexivity].
  destruct (Z.leb_spec window (2 * len x)) as [H|H]; simpl.
  - apply calc_pct_value; assumption.
  - apply calc_pct_null. exact H.
Qed.

Lemma window_at_last (series : list (option Q)) (window : Z) (i : nat) :
  (1 <= window)%Z -> (i < length series)%nat ->
  exists cur, iloc_last (window_at series (Z.to_nat window) i) = Some cur.
Proof.
  intros HW Hi. apply iloc_last_nonempty. intro Hnil.
  pose proof (window_at_length series (Z.to_nat window) i Hi) as Hlen.
  rewrite Hnil in Hlen. cbn [length] in Hlen. lia.
Qed.

(** For a window of at least one row the computation returns, and every
    position of the output is described by its slice alone. *)
Lemma rolling_percentile_cells (series : list (option Q)) (window : Z) :
  (1 <= window)%Z ->
  exists out,
    rolling_percentile series window = Ok out /\
    length out = length series /\
    forall i, (i < length series)%nat ->
      let x := window_at series (Z.to_nat window) i in
      exists cur,
        iloc_last x = Some cur /\
        nth_error out i =
        Some (if ((window / 2 <=? count_valid x) && (window <=? 2 * len x))%Z
              then Some (rank_fraction x cur) else None).
Proof.
  intro HW. unfold rolling_percentile, rolling_apply, min_periods_of.
  rewrite Z.quot_div_nonneg by lia.
  destruct (Z.ltb_spec window 0) as [H|_]; [lia|].
  destruct (Z.ltb_spec (window / 2) 0) as [H|_];
    [Z.to_euclidean_division_equations; lia|].
  destruct (Z.ltb_spec window (window / 2)) as [H|_];
    [Z.to_euclidean_division_equations; lia|].
  match goal with |- exists out, mapM ?f ?l = _ /\ _ => set (cell := f) end.
  assert (Hcell : forall i, (i < length series)%nat ->
            exists cur,
              iloc_last (window_at series (Z.to_nat window) i) = Some cur /\
              cell i =
              Ok (if ((window / 2 <=? count_valid (window_at series (Z.to_nat window) i))
                      && (window <=? 2 * len (window_at series (Z.to_nat window) i)))%Z
                  then Some (rank_fraction (window_at series (Z.to_nat window) i) cur)
                  else None)).
  { intros i Hi. destruct (window_at_last series window i HW Hi) as [cur Hcur].
    exists cur. split; [exact Hcur|]. unfold cell.
    apply rolling_cell. exact Hcur. }
  destruct (mapM_total cell (seq 0 (length series))) as [out Hout].
  { intros i Hin. apply in_seq in Hin.
    destruct (Hcell i) as (cur & _ & E); [lia|]. rewrite E. eexists. reflexivity. }
  exists out. split; [exact Hout|].
  destruct (mapM_inv cell _ _ Hout) as [Hlen Hcells].
  rewrite length_seq in Hlen. split; [exact Hlen|].
  intros i Hi. cbv zeta.
  destruct (Hcell i Hi) as (cur & Hcur & E). exists cur. split; [exact Hcur|].
  destruct (Hcells i i (nth_error_seq_0 _ _ Hi)) as (b & Hb & Hfb).
  rewrite Hb. rewrite E in Hfb. injection Hfb as <-. reflexivity.
Qed.

(** C8: wherever the rolling percentile returns and its output at a
    position is not missing, that value lies in [0, 1], for every series
    (missing values included) and every window length: it is the rank
    fraction of the last element of the slice, whose strict-less rank is
    at most the slice size minus one, and it is 0.5 on a slice of size 1. *)
Theorem percentile_bounds (series : list (option Q)) (window : Z)
    (out : list (option Q)) (i : nat) (v : Q) :
  rolling_percentile series window = Ok out ->
  nth_error out i = Some (Some v) ->
  0 <= v <= 1 /\
  let x := window_at series (Z.to_nat window) i in
  exists cur,
    iloc_last x = Some cur /\
    v = rank_fraction x cur /\
    (0 <= rank_of x cur <= len x - 1)%Z /\
    (len x = 1%Z -> v = 1 # 2).
Proof.
  unfold rolling_percentile, rolling_apply.
  destruct (window <? 0)%Z; [discriminate|].
  destruct (min_periods_of window <? 0)%Z; [discriminate|].
  destruct (window <? min_periods_of window)%Z; [discriminate|].
  intros Hout Hv.
  destruct (mapM_inv _ _ _ Hout) as [Hlen Hcells].
  assert (Hi : (i < length series)%nat).
  { rewrite length_seq in Hlen. rewrite <- Hlen.
    apply nth_error_Some. congruence. }
  destruct (Hcells i i (nth_error_seq_0 _ _ Hi)) as (b & Hb & Hfb).
  rewrite Hv in Hb. injection Hb as <-. cbv beta zeta in Hfb.
  destruct (min_periods_of window <=? _)%Z; [|discriminate].
  destruct (calc_pct_inv _ _ _ Hfb) as (cur & Hcur & ->).
  split; [exact (rank_fraction_bounds _ _ Hcur)|].
  cbv zeta. exists cur. split; [exact Hcur|]. split; [reflexivity|].
  split; [exact (rank_of_bounds _ _ Hcur)|].
  intro Hone. apply rank_fraction_single. exact Hone.
Qed.

End RollingCells.

Section PercentileClaims.

Import Factors.

Lemma count_valid_full (x : list (option Q)) :
  Forall (fun v => v <> None) x -> count_valid x = len x.
Proof.
  unfold count_valid, len. intro H. f_equal.
  induction H as [|v x Hv _ IH]; [reflexivity|].
  destruct v as [q|]; [|congruence]. simpl. f_equal. exact IH.
Qed.

Lemma window_at_Forall {A : Type} (P : A -> Prop) (series : list A) (w i : nat) :
  Forall P series -> Forall P (window_at series w i).
Proof.
  intro H. apply Forall_forall. intros a Ha.
  apply (proj1 (Forall_forall P series) H). exact (window_at_In _ _ _ _ Ha).
Qed.

Lemma observed_series (values : list Q) :
  Forall (fun v : option Q => v <> None) (map Some values).
Proof.
  apply Forall_forall. intros v Hv. apply in_map_iff in Hv.
  destruct Hv as (q & <- & _). discriminate.
Qed.

(** C3: for every series of values and every window length W >= 2, the
    rolling percentile returns one output per date; the output at
    position i is missing exactly when the trailing window ending at i,
    of min(i+1, W) observations, holds fewer than ceil(W/2) of them, and
    is a number otherwise.  The inner guard [len(x) < W * 0.5] is that
    cutoff for even and odd W, and [min_periods = int(W * 0.5)] never
    exceeds it. *)
Theorem minimum_data_cutoff (values : list Q) (window : Z) :
  (2 <= window)%Z ->
  exists out,
    rolling_percentile (map Some values) window = Ok out /\
    length out = length values /\
    (forall n : Z,
       Qlt_bool (inject_Z n) (inject_Z window * (1 # 2)) = true
       <-> (n < (window + 1) / 2)%Z) /\
    (min_periods_of window <= (window + 1) / 2)%Z /\
    forall i, (i < length values)%nat ->
      let n := len (window_at (map Some values) (Z.to_nat window) i) in
      n = Z.min (Z.of_nat i + 1) window /\
      (nth_error out i = Some None <-> (n < (window + 1) / 2)%Z) /\
      (((window + 1) / 2 <= n)%Z -> exists v, nth_error out i = Some (Some v)).
Proof.
  intro HW. set (series := map Some values).
  assert (Hfull : Forall (fun v : option Q => v <> None) series)
    by apply observed_series.
  assert (Hsame : length series = length values) by apply length_map.
  destruct (rolling_percentile_cells series window) as (out & Hout & Hlen & Hcells);
    [lia|].
  exists out. split; [exact Hout|]. split; [congruence|].
  split.
  { intro n. rewrite half_window_guard.
    split; intro H; Z.to_euclidean_division_equations; lia. }
  split.
  { unfold min_periods_of. rewrite Z.quot_div_nonneg by lia.
    Z.to_euclidean_division_equations; lia. }
  intros i Hi. cbv zeta. rewrite <- Hsame in Hi.
  destruct (Hcells i Hi) as (cur & _ & Hcell).
  set (x := window_at series (Z.to_nat window) i) in *.
  assert (Hcount : count_valid x = len x).
  { apply count_valid_full. apply window_at_Forall. exact Hfull. }
  assert (Hn : len x = Z.min (Z.of_nat i + 1) window).
  { unfold len, x. rewrite (window_at_length series _ i Hi). lia. }
  rewrite Hcount in Hcell. split; [exact Hn|].
  destruct (Z.leb_spec (window / 2) (len x)) as [Hmin|Hmin];
    destruct (Z.leb_spec window (2 * len x)) as [Hhalf|Hhalf];
    simpl in Hcell; rewrite Hcell; split;
    try (split; intro H; [try discriminate|try reflexivity];
         Z.to_euclidean_division_equations; lia);
    try (intro H; try (eexists; reflexivity);
         Z.to_euclidean_division_equations; lia).
Qed.

(** Window 5: the second position is below the cutoff of 3, the third
    is not. *)
Lemma minimum_data_cutoff_witness :
  exists out,
    rolling_percentile (map Some [10; 20; 30; 40; 50]) 5 = Ok out /\
    nth_error out 1 = Some None /\
    exists v, nth_error out 2 = Some (Some v).
Proof.
  assert (HW : (2 <= 5)%Z) by lia.
  destruct (minimum_data_cutoff [10; 20; 30; 40; 50] 5 HW)
    as (out & Hout & _ & _ & _ & Hcells).
  exists out. split; [exact Hout|]. split.
  - apply (Hcells 1%nat); [simpl; lia|]. vm_compute. reflexivity.
  - apply (Hcells 2%nat); [simpl; lia|]. vm_compute. discriminate.
Defined.

(** Scenario A of the specification: window 5 over 10, 20, 30, 40, 50;
    the first two positions are below the cutoff, the rank of each later
    value among its window is the window size minus one. *)
Example scenario_A_percentiles :
  rolling_percentile (map Some [10; 20; 30; 40; 50]) 5
  = Ok [None; None; Some (2 / 2); Some (3 / 3); Some (4 / 4)].
Proof.
  vm_compute. reflexivity.
Qed.

(** The last position of scenario A. *)
Lemma percentile_bounds_witness :
  exists v,
    nth_error [None; None; Some (2 / 2); Some (3 / 3); Some (4 / 4)] 4
    = Some (Some v) /\ 0 <= v <= 1.
Proof.
  eexists. split; [reflexivity|].
  exact (proj1 (percentile_bounds (map Some [10; 20; 30; 40; 50]) 5 _ 4 _
                  scenario_A_percentiles eq_refl)).
Defined.

End PercentileClaims.

Section WindowValidation.

Import Factors.

(** C6, as the specification words it, fails: a window length of 1 is
    below 2, yet the call returns values instead of failing. *)
Lemma window_one_returns_values :
  rolling_percentile [Some 10; Some 20; Some 30] 1
  = Ok [Some (1 # 2); Some (1 # 2); Some (1 # 2)].
Proof.
  vm_compute. reflexivity.
Qed.

Lemma rolling_percentile_negative (series : list (option Q)) (window : Z) :
  (window < 0)%Z -> rolling_percentile series window = Raise ValueError.
Proof.
  intro H. unfold rolling_percentile, rolling_apply.
  destruct (Z.ltb_spec window 0); [reflexivity|lia].
Qed.

Lemma rolling_percentile_empty (window : Z) :
  (0 <= window)%Z -> rolling_percentile [] window = Ok [].
Proof.
  intro H. unfold rolling_percentile, rolling_apply, min_periods_of.
  rewrite Z.quot_div_nonneg by lia.
  destruct (Z.ltb_spec window 0); [lia|].
  destruct (Z.ltb_spec (window / 2) 0);
    [Z.to_euclidean_division_equations; lia|].
  destruct (Z.ltb_spec window (window / 2));
    [Z.to_euclidean_division_equations; lia|].
  reflexivity.
Qed.

Lemma rolling_percentile_one (series : list (option Q)) :
  rolling_percentile series 1 = Ok (repeat (Some (1 # 2)) (length series)).
Proof.
  destruct (rolling_percentile_cells series 1) as (out & Hout & Hlen & Hcells);
    [lia|].
  rewrite Hout. f_equal. apply nth_error_ext. intro i.
  destruct (Nat.lt_ge_cases i (length series)) as [Hi|Hi].
  - rewrite nth_error_repeat by exact Hi.
    destruct (Hcells i Hi) as (cur & _ & Hcell). rewrite Hcell.
    pose proof (window_at_length series (Z.to_nat 1) i Hi) as Hx.
    set (x := window_at series (Z.to_nat 1) i) in *.
    assert (Hone : len x = 1%Z) by (unfold len; lia).
    unfold rank_fraction. rewrite Hone.
    assert (Hcount : (0 <= count_valid x)%Z) by (unfold count_valid, len; lia).
    change (1 / 2)%Z with 0%Z.
    destruct (Z.leb_spec 0 (count_valid x)); [|lia]. reflexivity.
  - rewrite (proj2 (nth_error_None out i)) by lia.
    symmetry. apply nth_error_None. rewrite repeat_length. exact Hi.
Qed.

(** C6, amended: the code has no check of its own on the window length.
    A window length of 1 is accepted and yields 0.5 at every position;
    a negative window length fails with the ValueError of the
    rolling-window constructor; an empty series yields an empty output
    without error for every window length that constructor accepts. *)
Theorem window_length_handling (series : list (option Q)) :
  rolling_percentile series 1 = Ok (repeat (Some (1 # 2)) (length series)) /\
  (forall window, (window < 0)%Z ->
     rolling_percentile series window = Raise ValueError) /\
  (forall window, (0 <= window)%Z -> rolling_percentile [] window = Ok []).
Proof.
  split; [apply rolling_percentile_one|].
  split; [apply rolling_percentile_negative|apply rolling_percentile_empty].
Qed.

(** A negative window on one value; the three-year daily window on an
    empty series. *)
Lemma window_length_handling_witness :
  rolling_percentile [Some 7] (-3) = Raise ValueError /\
  rolling_percentile [] 756 = Ok [].
Proof.
  destruct (window_length_handling [Some 7]) as (_ & Hneg & Hempty).
  split.
  - apply Hneg. lia.
  - apply Hempty. lia.
Defined.

(** A window length of 0 passes the constructor and then fails inside
    the closure, on the last element of an empty slice. *)
Remark window_zero_raises :
  rolling_percentile [Some 10; Some 20] 0 = Raise IndexError.
Proof.
  vm_compute. reflexivity.
Qed.

End WindowValidation.

Section TiedWindows.

Import Factors.

Lemma tied_rank_zero (x : list (option Q)) (c : Q) (cur : option Q) :
  Forall (tied c) x -> tied c cur -> rank_of x cur = 0%Z.
Proof.
  intros Hall (q' & -> & Hq'). unfold rank_of, len.
  replace (filter (lt_scalar (Some q')) x) with (@nil (option Q)); [reflexivity|].
  induction Hall as [|v x (q & -> & Hq) _ IH]; [reflexivity|].
  simpl. destruct (Qlt_bool q q') eqn:E.
  - apply Qlt_bool_iff in E. lra.
  - exact IH.
Qed.

(** C10, as worded, fails: under a window length of 5 the slice at the
    second date holds two equal values; the closure is called on it
    (min_periods is 2) and returns NaN, because 2 < 5 * 0.5.  The output
    is missing, not 0. *)
Lemma tied_window_below_cutoff :
  window_at [Some 5; Some 5] 5 1 = [Some 5; Some 5] /\
  min_periods_of 5 = 2%Z /\
  calc_pct 5 [Some 5; Some 5] = Ok None /\
  rolling_percentile [Some 5; Some 5] 5 = Ok [None; None].
Proof.
  vm_compute. repeat split.
Qed.

(** C10, amended: for a window of size >= 2 whose values all equal the
    current value, the strict-less rank is 0; the rolling percentile at
    that position is exactly 0 when the window also meets the
    minimum-data cutoff (W <= 2 * size), and missing below it. *)
Theorem tied_window_scores_zero (series : list (option Q)) (window : Z)
    (i : nat) (c : Q) :
  (1 <= window)%Z -> (i < length series)%nat ->
  let x := window_at series (Z.to_nat window) i in
  (2 <= len x)%Z ->
  Forall (tied c) x ->
  (forall cur, iloc_last x = Some cur -> rank_of x cur = 0%Z) /\
  exists out,
    rolling_percentile series window = Ok out /\
    ((window <= 2 * len x)%Z ->
       exists v, nth_error out i = Some (Some v) /\ v == 0) /\
    ((2 * len x < window)%Z -> nth_error out i = Some None).
Proof.
  intros HW Hi x Hsize Htied.
  assert (Hrank : forall cur, iloc_last x = Some cur -> rank_of x cur = 0%Z).
  { intros cur Hcur. apply (tied_rank_zero x c cur Htied).
    apply (proj1 (Forall_forall (tied c) x) Htied). apply iloc_last_In. exact Hcur. }
  split; [exact Hrank|].
  destruct (rolling_percentile_cells series window HW) as (out & Hout & _ & Hcells).
  exists out. split; [exact Hout|].
  destruct (Hcells i Hi) as (cur & Hcur & Hcell). fold x in Hcur, Hcell.
  assert (Hcount : count_valid x = len x).
  { apply count_valid_full. apply Forall_forall. intros v Hv.
    destruct (proj1 (Forall_forall (tied c) x) Htied v Hv) as (q & -> & _).
    discriminate. }
  rewrite Hcount in Hcell. split.
  - intro Hcut.
    destruct (Z.leb_spec (window / 2) (len x)) as [_|Hmin];
      [|Z.to_euclidean_division_equations; lia].
    destruct (Z.leb_spec window (2 * len x)) as [_|Hhalf]; [|lia].
    simpl in Hcell. eexists. split; [exact Hcell|].
    unfold rank_fraction. rewrite (Hrank cur Hcur).
    destruct (Z.ltb_spec 1 (len x)); [|lia].
    unfold Qdiv. apply Qmult_0_l.
  - intro Hcut.
    destruct (Z.leb_spec window (2 * len x)) as [Hhalf|_]; [lia|].
    rewrite andb_false_r in Hcell. exact Hcell.
Qed.

(** Three equal values under window 4: the third position has a full
    enough window and scores 0. *)
Lemma tied_window_scores_zero_witness :
  exists out,
    rolling_percentile [Some 5; Some 5; Some 5] 4 = Ok out /\
    exists v, nth_error out 2 = Some (Some v) /\ v == 0.
Proof.
  assert (HW : (1 <= 4)%Z) by lia.
  assert (Hi : (2 < length [Some 5%Q; Some 5%Q; Some 5%Q])%nat) by (simpl; lia).
  assert (Hsize : (2 <= len (window_at [Some 5; Some 5; Some 5] (Z.to_nat 4) 2))%Z)
    by (vm_compute; discriminate).
  assert (Htied : Forall (tied 5) (window_at [Some 5; Some 5; Some 5] (Z.to_nat 4) 2)).
  { repeat constructor; exists 5; split; reflexivity. }
  destruct (tied_window_scores_zero _ 4 2 5 HW Hi Hsize Htied)
    as (_ & out & Hout & Hzero & _).
  exists out. split; [exact Hout|].
  apply Hzero. vm_compute. discriminate.
Defined.

End TiedWindows.

(** ** Trade statistics and guarded ratios *)

Section TradeStats.

Import Backtest.

Lemma Qsum_negative (l : list Q) :
  l <> [] -> Forall (fun r => r < 0) l -> Qsum l < 0.
Proof.
  intros Hne Hall. induction Hall as [|r l Hr Hall IH]; [congruence|].
  simpl. destruct l as [|r' l].
  - simpl. lra.
  - assert (Qsum (r' :: l) < 0) by (apply IH; discriminate). lra.
Qed.

Lemma losers_negative (tr : list Q) : Forall (fun r => r < 0) (losers tr).
Proof.
  apply Forall_forall. intros r Hr. unfold losers in Hr.
  apply filter_In in Hr. destruct Hr as [_ Hr].
  apply Qlt_bool_iff. exact Hr.
Qed.

Lemma mean_losers_negative (tr : list Q) :
  losers tr <> [] -> mean (losers tr) < 0.
Proof.
  intro Hne. unfold mean.
  assert (Hlen : 0 < inject_Z (len (losers tr))).
  { change 0 with (inject_Z 0). rewrite <- Zlt_Qlt. unfold len.
    destruct (losers tr); [congruence|simpl; lia]. }
  apply Qlt_shift_div_r; [exact Hlen|].
  rewrite Qmult_0_l. apply Qsum_negative; [exact Hne|apply losers_negative].
Qed.

Lemma avg_loss_with_losers (tr : list Q) :
  losers tr <> [] ->
  avg_loss tr = Qabs (mean (losers tr)) /\ 0 < avg_loss tr.
Proof.
  intro Hne. unfold avg_loss.
  destruct (Z.ltb_spec 0 (len (losers tr))) as [_|H].
  - split; [reflexivity|].
    pose proof (mean_losers_negative tr Hne) as Hneg.
    rewrite Qabs_neg by lra. lra.
  - unfold len in H. destruct (losers tr); [congruence|simpl in H; lia].
Qed.

Lemma avg_loss_without_losers (tr : list Q) :
  losers tr = [] -> avg_loss tr = 1.
Proof.
  intro H. unfold avg_loss. rewrite H. reflexivity.
Qed.

Lemma adjacent_nonempty {A : Type} (l : list A) :
  (2 <= length l)%nat -> adjacent l <> [].
Proof.
  destruct l as [|a [|b l]]; simpl; intro H; try lia. discriminate.
Qed.

(** C5, as the specification words it, fails.  On a backtest without
    costs over a price that never moves there is one segment, it is not
    a losing one, and the profit factor is 0; on the two winning
    segments 0.1 and 0.3, without a losing one, the profit factor is
    their mean 0.2.  Neither is 1. *)
Lemma profit_factor_without_losers_not_one :
  (exists res r,
     run log_first_order zero_cost_config flat_price_table = Ok res /\
     trade_returns res = [r] /\
     r == 0 /\
     losers (trade_returns res) = [] /\
     snd (fst (_calc_trade_stats res)) == 0) /\
  losers [1 # 10; 3 # 10] = [] /\
  profit_factor [1 # 10; 3 # 10] == 2 # 10 /\
  ~ profit_factor [1 # 10; 3 # 10] == 1.
Proof.
  split.
  - eexists. eexists. split; [reflexivity|].
    split; [vm_compute; reflexivity|]. vm_compute. repeat split.
  - vm_compute. repeat split. discriminate.
Qed.

(** C5, amended: with at least one losing segment the profit factor is
    the mean of the positive segments (0 when there is none) divided by
    the absolute value of the mean of the negative segments; without a
    losing segment the divisor defaults to 1, so the profit factor is the
    mean of the positive segments (0 when there is none); with fewer than
    two position changes the three trade statistics are 0; and the
    Sharpe, Sortino, Calmar, beta and win-rate ratios are 0 when their
    denominator is 0. *)
Theorem profit_factor_and_guarded_ratios :
  (forall tr, losers tr <> [] ->
     profit_factor tr = avg_win tr / Qabs (mean (losers tr))) /\
  (forall tr, losers tr = [] -> profit_factor tr == avg_win tr) /\
  (forall tr, winners tr <> [] -> avg_win tr = mean (winners tr)) /\
  (forall tr, winners tr = [] -> avg_win tr = 0) /\
  (forall df, (len (trade_indices df) < 2)%Z ->
     _calc_trade_stats df = (0, 0, 0)) /\
  (forall df, (2 <= len (trade_indices df))%Z ->
     _calc_trade_stats df =
     (win_rate (trade_returns df), profit_factor (trade_returns df),
      mean (trade_returns df))) /\
  (forall e v, v == 0 -> sharpe_ratio e v = 0) /\
  (forall e v, v == 0 -> sortino_ratio e v = 0) /\
  (forall c d, d == 0 -> calmar_ratio c d = 0) /\
  (forall c v, v == 0 -> beta c v = 0) /\
  win_rate [] = 0.
Proof.
  split.
  { intros tr Hne. destruct (avg_loss_with_losers tr Hne) as [E Hpos].
    unfold profit_factor. rewrite (proj2 (Qlt_bool_iff _ _) Hpos), E.
    reflexivity. }
  split.
  { intros tr Hnil. unfold profit_factor.
    rewrite (avg_loss_without_losers tr Hnil). cbn. field. }
  split.
  { intros tr Hne. unfold avg_win, len.
    destruct (winners tr); [congruence|reflexivity]. }
  split.
  { intros tr Hnil. unfold avg_win. rewrite Hnil. reflexivity. }
  split.
  { intros df H. unfold _calc_trade_stats.
    destruct (Z.ltb_spec (len (trade_indices df)) 2); [reflexivity|lia]. }
  split.
  { intros df H. unfold _calc_trade_stats.
    destruct (Z.ltb_spec (len (trade_indices df)) 2); [lia|].
    assert (Hne : trade_returns df <> []).
    { unfold trade_returns. intro Hnil. apply map_eq_nil in Hnil.
      revert Hnil. apply adjacent_nonempty. unfold len in H. lia. }
    destruct (trade_returns df); [congruence|reflexivity]. }
  assert (Hguard : forall v, v == 0 -> Qlt_bool 0 v = false).
  { intros v Hv. apply Qlt_bool_false_iff. lra. }
  split; [intros e v Hv; unfold sharpe_ratio; rewrite (Hguard v Hv); reflexivity|].
  split; [intros e v Hv; unfold sortino_ratio; rewrite (Hguard v Hv); reflexivity|].
  split.
  { intros c d Hd. unfold calmar_ratio.
    rewrite (proj2 (Qeq_bool_iff d 0) Hd). reflexivity. }
  split; [intros c v Hv; unfold beta; rewrite (Hguard v Hv); reflexivity|].
  reflexivity.
Qed.

(** Two winning segments and a losing one; a Sharpe ratio at zero
    volatility. *)
Lemma profit_factor_and_guarded_ratios_witness :
  profit_factor [1 # 10; -1 # 20; 3 # 10]
  = avg_win [1 # 10; -1 # 20; 3 # 10] / Qabs (mean (losers [1 # 10; -1 # 20; 3 # 10])) /\
  sharpe_ratio (5 # 100) 0 = 0.
Proof.
  destruct profit_factor_and_guarded_ratios as (Hpf & _ & _ & _ & _ & _ & Hsharpe & _).
  split.
  - apply Hpf. vm_compute. discriminate.
  - apply Hsharpe. reflexivity.
Defined.

End TradeStats.

(** * Further properties of the modelled code *)

Lemma filter_none {A : Type} (f : A -> bool) (l : list A) :
  (forall x, In x l -> f x = false) -> filter f l = [].
Proof.
  induction l as [|a l IH]; intro H; [reflexivity|].
  simpl. rewrite (H a (or_introl eq_refl)). apply IH.
  intros x Hx. apply H. right. exact Hx.
Qed.

(** ** Longest drawdown *)

Section DrawdownDuration.

Import Backtest.

Lemma runs_nonempty (l : list bool) : runs l <> [].
Proof.
  destruct l as [|[|] t]; simpl; try discriminate.
  destruct (runs t); discriminate.
Qed.

Lemma runs_cons_true (t : list bool) :
  exists r rs, runs t = r :: rs /\ runs (true :: t) = S r :: rs.
Proof.
  simpl. destruct (runs t) as [|r rs] eqn:E.
  - exfalso. exact (runs_nonempty t E).
  - exists r, rs. split; reflexivity.
Qed.

Lemma cumsum_from_lower (bs : list bool) :
  forall c k, In k (cumsum_from c bs) -> (c <= k)%Z.
Proof.
  induction bs as [|b bs IH]; intros c k Hin; simpl in Hin; [contradiction|].
  destruct Hin as [<-|Hin].
  - destruct b; lia.
  - apply IH in Hin. destruct b; lia.
Qed.

Lemma group_count_absent (k : Z) (keys : list Z) (vals : list bool) :
  ~ In k keys -> group_count k keys vals = 0%Z.
Proof.
  intro Hnot. unfold group_count. rewrite filter_none; [reflexivity|].
  intros [k' v] Hin. simpl.
  destruct (Z.eqb_spec k' k) as [->|]; [|reflexivity].
  exfalso. apply Hnot. exact (in_combine_l _ _ _ _ Hin).
Qed.

Lemma group_count_present (k : Z) (keys : list Z) (vals : list bool) :
  (0 < group_count k keys vals)%Z -> In k keys.
Proof.
  intro Hpos. destruct (in_dec Z.eq_dec k keys) as [Hin|Hnot]; [exact Hin|].
  rewrite (group_count_absent k keys vals Hnot) in Hpos. lia.
Qed.

(** The group [c + j] of the running count of False cells started at [c]
    holds the [j]-th run of True cells. *)
Lemma group_count_runs (vals : list bool) :
  forall (c : Z) (j : nat),
    group_count (c + Z.of_nat j) (cumsum_from c (map negb vals)) vals
    = Z.of_nat (nth j (runs vals) 0%nat).
Proof.
  induction vals as [|b t IH]; intros c j.
  - destruct j as [|[|j]]; reflexivity.
  - destruct b.
    + destruct (runs_cons_true t) as (r & rs & Ert & Erun). rewrite Erun.
      cbn [map negb cumsum_from]. rewrite Z.add_0_r.
      specialize (IH c j). rewrite Ert in IH.
      unfold group_count in *. cbn [combine filter fst snd].
      destruct (Z.eqb_spec c (c + Z.of_nat j)) as [E|E]; cbn [andb].
      * assert (j = 0%nat) by lia. subst j.
        unfold len in *. cbn [length nth] in *. lia.
      * destruct j as [|j]; [lia|]. cbn [nth] in *. exact IH.
    + cbn [map negb cumsum_from runs].
      unfold group_count. cbn [combine filter fst snd].
      rewrite andb_false_r. fold (group_count (c + Z.of_nat j)
                                     (cumsum_from (c + 1) (map negb t)) t).
      destruct j as [|j].
      * cbn [nth]. apply group_count_absent. intro Hin.
        apply cumsum_from_lower in Hin. lia.
      * cbn [nth]. rewrite <- (IH (c + 1)%Z j). f_equal. lia.
Qed.

(** The first run is a prefix of the column. *)
Lemma runs_head_prefix (vals : list bool) :
  forall k, (k < nth 0 (runs vals) 0)%nat -> nth k vals false = true.
Proof.
  induction vals as [|b t IH]; intros k Hk.
  - simpl in Hk. lia.
  - destruct b.
    + destruct (runs_cons_true t) as (r & rs & Ert & Erun).
      rewrite Erun in Hk. cbn [nth] in Hk.
      destruct k as [|k]; [reflexivity|]. cbn [nth].
      apply IH. rewrite Ert. cbn [nth]. lia.
    + simpl in Hk. lia.
Qed.

(** Every run is a window of consecutive True cells. *)
Lemma runs_window (vals : list bool) :
  forall j r, nth_error (runs vals) j = Some r ->
    exists start, forall k, (k < r)%nat -> nth (start + k) vals false = true.
Proof.
  induction vals as [|b t IH]; intros j r Hj.
  - destruct j as [|[|j]]; simpl in Hj; try discriminate.
    injection Hj as <-. exists 0%nat. intros k Hk. lia.
  - destruct b.
    + destruct (runs_cons_true t) as (r0 & rs & Ert & Erun).
      destruct j as [|j].
      * exists 0%nat. intros k Hk. apply runs_head_prefix.
        rewrite Erun in *. simpl in Hj. injection Hj as <-. exact Hk.
      * rewrite Erun in Hj. simpl in Hj.
        destruct (IH (S j) r) as [start Hstart].
        { rewrite Ert. exact Hj. }
        exists (S start). intros k Hk. exact (Hstart k Hk).
    + destruct j as [|j]; simpl in Hj.
      * injection Hj as <-. exists 0%nat. intros k Hk. lia.
      * destruct (IH j r Hj) as [start Hstart].
        exists (S start). intros k Hk. exact (Hstart k Hk).
Qed.

Lemma window_le_head (vals : list bool) :
  forall w, (forall k, (k < w)%nat -> nth k vals false = true) ->
    (w <= nth 0 (runs vals) 0)%nat.
Proof.
  induction vals as [|b t IH]; intros w Hw.
  - destruct w as [|w]; [lia|]. specialize (Hw 0%nat). simpl in Hw.
    assert (false = true) by (apply Hw; lia). discriminate.
  - destruct w as [|w]; [lia|]. destruct b.
    + destruct (runs_cons_true t) as (r0 & rs & Ert & Erun).
      rewrite Erun. cbn [nth].
      assert (w <= nth 0 (runs t) 0)%nat.
      { apply IH. intros k Hk. apply (Hw (S k)). lia. }
      rewrite Ert in H. cbn [nth] in H. lia.
    + assert (false = true) by (apply (Hw 0%nat); lia). discriminate.
Qed.

(** Every window of consecutive True cells fits in a run. *)
Lemma window_le_run (vals : list bool) :
  forall start w,
    (forall k, (k < w)%nat -> nth (start + k) vals false = true) ->
    exists j, (w <= nth j (runs vals) 0)%nat.
Proof.
  induction vals as [|b t IH]; intros start w Hw.
  - exists 0%nat. destruct w as [|w]; [lia|].
    assert (nth (start + 0) (@nil bool) false = true) by (apply Hw; lia).
    destruct (start + 0)%nat; discriminate.
  - destruct start as [|start].
    + exists 0%nat. apply window_le_head. exact Hw.
    + destruct (IH start w) as [j Hj].
      { intros k Hk. exact (Hw k Hk). }
      destruct b.
      * destruct (runs_cons_true t) as (r0 & rs & Ert & Erun).
        rewrite Erun. rewrite Ert in Hj.
        destruct j as [|j]; [exists 0%nat|exists (S j)]; cbn [nth] in *; lia.
      * exists (S j). exact Hj.
Qed.

Lemma fold_max_spec (t : list Z) :
  forall x,
    (forall y, In y (x :: t) -> (y <= fold_left Z.max t x)%Z) /\
    In (fold_left Z.max t x) (x :: t).
Proof.
  induction t as [|a t IH]; intro x.
  - simpl. split; [intros y [<-|[]]; lia|left; reflexivity].
  - cbn [fold_left]. destruct (IH (Z.max x a)) as [Hub Hin]. split.
    + intros y [<-|[<-|Hy]].
      * assert (Z.max x a <= fold_left Z.max t (Z.max x a))%Z
          by (apply Hub; left; reflexivity). lia.
      * assert (Z.max x a <= fold_left Z.max t (Z.max x a))%Z
          by (apply Hub; left; reflexivity). lia.
      * apply Hub. right. exact Hy.
    + destruct Hin as [E|Hin].
      * rewrite <- E. destruct (Z.max_spec x a) as [[_ ->]|[_ ->]].
        -- right. left. reflexivity.
        -- left. reflexivity.
      * right. right. exact Hin.
Qed.

Lemma series_max_spec (l : list Z) (m : Z) :
  series_max l = Some m ->
  (forall y, In y l -> (y <= m)%Z) /\ In m l.
Proof.
  destruct l as [|x t]; [discriminate|]. simpl. intro H. injection H as <-.
  apply fold_max_spec.
Qed.

Lemma existsb_id_false (vals : list bool) (i : nat) :
  existsb (fun b => b) vals = false -> nth i vals false = false.
Proof.
  revert i. induction vals as [|b t IH]; intros i H.
  - destruct i; reflexivity.
  - simpl in H. apply orb_false_iff in H. destruct H as [-> Ht].
    destruct i as [|i]; [reflexivity|]. simpl. apply IH. exact Ht.
Qed.

(** What the grouping computes: the length of a longest window of
    consecutive True cells. *)
Lemma max_run_by_groups_spec (vals : list bool) :
  (0 <= max_run_by_groups vals)%Z /\
  (exists start, forall k,
     (Z.of_nat k < max_run_by_groups vals)%Z ->
     nth (start + k) vals false = true) /\
  (forall start w,
     (forall k, (k < w)%nat -> nth (start + k) vals false = true) ->
     (Z.of_nat w <= max_run_by_groups vals)%Z).
Proof.
  unfold max_run_by_groups.
  destruct (existsb (fun b => b) vals) eqn:Hany; cbn [negb].
  - set (keys := cumsum (map negb vals)).
    assert (Hcount : forall j,
              group_count (Z.of_nat j) keys vals = Z.of_nat (nth j (runs vals) 0%nat)).
    { intro j. exact (group_count_runs vals 0%Z j). }
    assert (Hkeys : keys <> []).
    { unfold keys, cumsum. destruct vals as [|b t]; [discriminate|].
      simpl. discriminate. }
    destruct (series_max (groupby_sum keys vals)) as [m|] eqn:Hmax.
    2:{ exfalso. unfold groupby_sum in Hmax.
        destruct (nodup Z.eq_dec keys) as [|k ks] eqn:Hnd.
        - destruct keys as [|k0 ks0]; [congruence|].
          assert (In k0 (nodup Z.eq_dec (k0 :: ks0)))
            by (apply nodup_In; left; reflexivity).
          rewrite Hnd in H. contradiction.
        - simpl in Hmax. discriminate. }
    destruct (series_max_spec _ _ Hmax) as [Hub Hin].
    unfold groupby_sum in Hin, Hub.
    apply in_map_iff in Hin. destruct Hin as (k & Hk & Hkin).
    apply nodup_In in Hkin.
    assert (Hk0 : (0 <= k)%Z) by exact (cumsum_from_lower _ _ _ Hkin).
    assert (Hm : m = Z.of_nat (nth (Z.to_nat k) (runs vals) 0%nat)).
    { rewrite <- Hk, <- Hcount. f_equal. lia. }
    split; [lia|]. split.
    + destruct (nth_error (runs vals) (Z.to_nat k)) as [r|] eqn:Hr.
      * destruct (runs_window vals _ _ Hr) as [start Hstart].
        exists start. intros i Hi. apply Hstart.
        rewrite (nth_error_nth _ _ 0%nat Hr) in Hm. lia.
      * exists 0%nat. intros i Hi. apply nth_error_None in Hr.
        rewrite (nth_overflow _ _ Hr) in Hm. lia.
    + intros start w Hw. destruct (window_le_run vals start w Hw) as [j Hj].
      destruct w as [|w]; [lia|].
      assert (Hpos : (0 < group_count (Z.of_nat j) keys vals)%Z)
        by (rewrite Hcount; lia).
      assert (Hle : (group_count (Z.of_nat j) keys vals <= m)%Z).
      { apply Hub. apply in_map_iff. exists (Z.of_nat j). split; [reflexivity|].
        apply nodup_In. exact (group_count_present _ _ _ Hpos). }
      rewrite Hcount in Hle. lia.
  - split; [lia|]. split.
    + exists 0%nat. intros k Hk. lia.
    + intros start w Hw. destruct w as [|w]; [lia|].
      assert (nth (start + 0) vals false = true) by (apply Hw; lia).
      rewrite (existsb_id_false vals _ Hany) in H. discriminate.
Qed.

(** The duration in terms of the drawdown column. *)
Lemma drawdown_duration_windows (df : Results) :
  (0 <= _calc_max_drawdown_duration df)%Z /\
  (exists start, forall k,
     (Z.of_nat k < _calc_max_drawdown_duration df)%Z ->
     nth (start + k) (drawdown df) 0 < 0) /\
  (forall start w,
     (forall k, (k < w)%nat -> nth (start + k) (drawdown df) 0 < 0) ->
     (Z.of_nat w <= _calc_max_drawdown_duration df)%Z).
Proof.
  unfold _calc_max_drawdown_duration.
  set (vals := map (fun d => Qlt_bool d 0) (drawdown df)).
  assert (Hcell : forall i, nth i vals false = Qlt_bool (nth i (drawdown df) 0) 0).
  { intro i. unfold vals.
    change false with ((fun d => Qlt_bool d 0) 0).
    apply map_nth. }
  destruct (max_run_by_groups_spec vals) as (H0 & (start & Hstart) & Hub).
  split; [exact H0|]. split.
  - exists start. intros k Hk. apply Qlt_bool_iff.
    rewrite <- Hcell. apply Hstart. exact Hk.
  - intros start' w Hw. apply (Hub start'). intros k Hk.
    rewrite Hcell. apply Qlt_bool_iff. apply Hw. exact Hk.
Qed.

(** X1: the maximum drawdown duration is the length of a longest stretch
    of consecutive dates with a negative drawdown: such a stretch of that
    length exists, and no longer one does. *)
Theorem max_drawdown_duration_is_longest_stretch (df : Results) :
  (0 <= _calc_max_drawdown_duration df)%Z /\
  (exists start, forall k,
     (Z.of_nat k < _calc_max_drawdown_duration df)%Z ->
     nth (start + k) (drawdown df) 0 < 0) /\
  (forall start w,
     (forall k, (k < w)%nat -> nth (start + k) (drawdown df) 0 < 0) ->
     (Z.of_nat w <= _calc_max_drawdown_duration df)%Z).
Proof.
  exact (drawdown_duration_windows df).
Qed.

End DrawdownDuration.

(** ** Filling the gaps of a source series *)

Section FillGaps.

Import Factors.

Lemma ffill_from_length {A : Type} (s : list (option A)) :
  forall last, length (ffill_from last s) = length s.
Proof.
  induction s as [|[v|] t IH]; intro last; simpl; auto.
Qed.

Lemma series_fillna_length {A : Type} (d : A) (s : list (option A)) :
  length (series_fillna d s) = length s.
Proof. apply length_map. Qed.

Lemma series_fillna_notna {A : Type} (d : A) (s : list (option A)) :
  Forall (fun v => isna v = false) (series_fillna d s).
Proof.
  unfold series_fillna. apply Forall_forall. intros v Hv.
  apply in_map_iff in Hv. destruct Hv as (x & <- & _). reflexivity.
Qed.

Lemma existsb_isna_false {A : Type} (s : list (option A)) :
  existsb isna s = false -> Forall (fun v => isna v = false) s.
Proof.
  induction s as [|v t IH]; intro H; [constructor|].
  simpl in H. apply orb_false_iff in H. destruct H as [Hv Ht].
  constructor; [exact Hv|exact (IH Ht)].
Qed.

Lemma fill_gaps_length (series : list (option Q)) :
  length (fill_gaps series) = length series.
Proof.
  unfold fill_gaps. destruct (existsb isna (ffill series)).
  - destruct (first_valid (ffill series));
      rewrite series_fillna_length; apply ffill_from_length.
  - apply ffill_from_length.
Qed.

Lemma fill_gaps_notna (series : list (option Q)) :
  Forall (fun v => isna v = false) (fill_gaps series).
Proof.
  unfold fill_gaps. destruct (existsb isna (ffill series)) eqn:E.
  - destruct (first_valid (ffill series)); apply series_fillna_notna.
  - apply existsb_isna_false. exact E.
Qed.

(** X2: the fill block of [prepare_inventory_data] and
    [get_metric_series] returns a series on the same axis with a value at
    every date, whatever the gaps of its input. *)
Theorem fill_gaps_complete (series : list (option Q)) :
  length (fill_gaps series) = length series /\
  forall i, (i < length series)%nat ->
    exists v, nth_error (fill_gaps series) i = Some (Some v).
Proof.
  split; [apply fill_gaps_length|].
  intros i Hi.
  destruct (nth_error (fill_gaps series) i) as [cell|] eqn:E.
  - pose proof (proj1 (Forall_forall _ _) (fill_gaps_notna series) cell
                  (nth_error_In _ _ E)) as Hcell.
    destruct cell as [v|]; [exists v; reflexivity|discriminate].
  - apply nth_error_None in E. rewrite fill_gaps_length in E. lia.
Qed.

Lemma ffill_from_gap {A : Type} (m : nat) (post : list (option A)) :
  forall (last : option A) k, (k < m)%nat ->
    nth_error (ffill_from last (repeat None m ++ post)) k = Some last.
Proof.
  induction m as [|m IH]; intros last k Hk; [lia|].
  simpl. destruct k as [|k]; [reflexivity|]. simpl. apply IH. lia.
Qed.

Lemma ffill_from_carry {A : Type} (pre : list (option A)) :
  forall (last : option A) (v : A) (m : nat) (post : list (option A)) (k : nat),
    (k <= m)%nat ->
    nth_error (ffill_from last (pre ++ Some v :: repeat None m ++ post))
              (length pre + k)
    = Some (Some v).
Proof.
  induction pre as [|[a|] pre IH]; intros last v m post k Hk.
  - simpl. destruct k as [|k]; [reflexivity|]. simpl.
    apply ffill_from_gap. lia.
  - simpl. apply IH. exact Hk.
  - simpl. apply IH. exact Hk.
Qed.

Lemma fill_gaps_keeps (series : list (option Q)) (i : nat) (v : Q) :
  nth_error (ffill series) i = Some (Some v) ->
  nth_error (fill_gaps series) i = Some (Some v).
Proof.
  intro H. unfold fill_gaps. destruct (existsb isna (ffill series)); [|exact H].
  destruct (first_valid (ffill series));
    unfold series_fillna; rewrite nth_error_map, H; reflexivity.
Qed.

(** X3: forward fill.  A value observed at a date is kept at that date
    and carried over the missing dates that follow it, up to the next
    observation. *)
Theorem fill_gaps_carries_forward (pre post : list (option Q)) (v : Q)
    (m k : nat) :
  (k <= m)%nat ->
  nth_error (fill_gaps (pre ++ Some v :: repeat None m ++ post)) (length pre + k)
  = Some (Some v).
Proof.
  intro Hk. apply fill_gaps_keeps. unfold ffill.
  apply ffill_from_carry. exact Hk.
Qed.

Lemma fill_gaps_carries_forward_witness :
  nth_error (fill_gaps ([None; Some 3] ++ Some 7 :: repeat None 2 ++ [Some 9])) (2 + 2)
  = Some (Some 7).
Proof.
  apply (fill_gaps_carries_forward [None; Some 3] [Some 9] 7 2 2). lia.
Defined.

Lemma ffill_leading {A : Type} (k : nat) (l : list (option A)) :
  ffill_from None (repeat None k ++ l) = repeat None k ++ ffill_from None l.
Proof.
  induction k as [|k IH]; [reflexivity|]. simpl. f_equal. exact IH.
Qed.

Lemma first_valid_leading {A : Type} (k : nat) (l : list (option A)) :
  first_valid (repeat None k ++ l) = first_valid l.
Proof.
  induction k as [|k IH]; [reflexivity|]. simpl. exact IH.
Qed.

Lemma ffill_all_missing {A : Type} (k : nat) :
  ffill (repeat (@None A) k) = repeat None k.
Proof.
  unfold ffill. induction k as [|k IH]; [reflexivity|]. simpl. f_equal. exact IH.
Qed.

Lemma first_valid_all_missing {A : Type} (k : nat) :
  first_valid (repeat (@None A) k) = None.
Proof.
  induction k as [|k IH]; [reflexivity|]. exact IH.
Qed.

Lemma series_fillna_all_missing {A : Type} (d : A) (k : nat) :
  series_fillna d (repeat None k) = repeat (Some d) k.
Proof.
  unfold series_fillna. induction k as [|k IH]; [reflexivity|].
  simpl. f_equal. exact IH.
Qed.

(** X4: back fill.  The dates before the first observation take the
    first observed value; a series that was never observed becomes
    zeros. *)
Theorem fill_gaps_before_first (k : nat) (f : Q) (rest : list (option Q)) :
  (forall i, (i <= k)%nat ->
     nth_error (fill_gaps (repeat None k ++ Some f :: rest)) i = Some (Some f)) /\
  fill_gaps (repeat None k) = repeat (Some 0) k.
Proof.
  split.
  - intros i Hi. destruct k as [|k].
    + assert (i = 0%nat) by lia. subst i. apply fill_gaps_keeps. reflexivity.
    + unfold fill_gaps, ffill. rewrite ffill_leading.
      cbn [repeat app ffill_from existsb isna orb first_valid].
      rewrite first_valid_leading. cbn [ffill_from first_valid].
      unfold series_fillna. rewrite nth_error_map.
      destruct i as [|i]; [reflexivity|]. cbn [nth_error].
      destruct (Nat.eq_dec i k) as [->|Hne].
      * rewrite nth_error_app2 by (rewrite repeat_length; lia).
        rewrite repeat_length, Nat.sub_diag. reflexivity.
      * rewrite nth_error_app1 by (rewrite repeat_length; lia).
        rewrite nth_error_repeat by lia. reflexivity.
  - unfold fill_gaps. rewrite ffill_all_missing.
    destruct k as [|k]; [reflexivity|].
    cbn [repeat existsb isna orb].
    change (None :: repeat None k) with (repeat (@None Q) (S k)).
    rewrite first_valid_all_missing.
    exact (series_fillna_all_missing 0 (S k)).
Qed.

Lemma fill_gaps_before_first_witness :
  nth_error (fill_gaps (repeat None 2 ++ Some 5 :: [None; Some 6])) 1
  = Some (Some 5).
Proof.
  apply (proj1 (fill_gaps_before_first 2 5 [None; Some 6])). lia.
Defined.

End FillGaps.

(** ** The global and regional percentile tables *)

Section PercentileTables.

Import Factors.

Lemma map_nth_seq {A : Type} (l : list A) (d : A) :
  map (fun i => nth i l d) (seq 0 (length l)) = l.
Proof.
  apply nth_error_ext. intro i. rewrite nth_error_map.
  destruct (Nat.lt_ge_cases i (length l)) as [Hi|Hi].
  - rewrite nth_error_seq_0 by exact Hi. simpl.
    symmetry. apply nth_error_nth'. exact Hi.
  - rewrite (proj2 (nth_error_None (seq 0 (length l)) i))
      by (rewrite length_seq; exact Hi).
    symmetry. apply nth_error_None. exact Hi.
Qed.

Lemma filter_all {A : Type} (f : A -> bool) (l : list A) :
  (forall x, In x l -> f x = true) -> filter f l = l.
Proof.
  induction l as [|a l IH]; intro H; [reflexivity|].
  simpl. rewrite (H a (or_introl eq_refl)). f_equal. apply IH.
  intros x Hx. apply H. right. exact Hx.
Qed.

Lemma filter_map_length {A B : Type} (f : B -> bool) (g : A -> B) (l : list A) :
  length (filter (fun a => f (g a)) l) = length (filter f (map g l)).
Proof.
  induction l as [|a l IH]; [reflexivity|].
  simpl. destruct (f (g a)); simpl; congruence.
Qed.

(** On rows in ascending date order, keeping the dates from [start] on
    drops a prefix: the rows dated before [start]. *)
Lemma rows_from_sorted {R : Type} (date_of : R -> Z) (start : Z) (rows : list R) :
  StronglySorted Z.le (map date_of rows) ->
  rows_from date_of start rows
  = skipn (length (filter (fun r => (date_of r <? start)%Z) rows)) rows.
Proof.
  unfold rows_from. induction rows as [|r t IH]; intro Hs; [reflexivity|].
  simpl in Hs. apply StronglySorted_inv in Hs. destruct Hs as [Ht Hall].
  cbn [filter]. destruct (Z.leb_spec start (date_of r)) as [Hge|Hlt].
  - destruct (Z.ltb_spec (date_of r) start) as [Hlt'|_]; [lia|].
    assert (Hkeep : forall x, In x t -> (start <=? date_of x)%Z = true).
    { intros x Hx. apply Z.leb_le.
      assert (date_of r <= date_of x)%Z.
      { apply (proj1 (Forall_forall _ _) Hall). apply in_map. exact Hx. }
      lia. }
    rewrite (filter_all _ t Hkeep).
    rewrite filter_none; [reflexivity|].
    intros x Hx. apply Z.ltb_ge. apply Z.leb_le. exact (Hkeep x Hx).
  - destruct (Z.ltb_spec (date_of r) start) as [_|Hge]; [|lia].
    cbn [length skipn]. apply IH. exact Ht.
Qed.

Lemma total_inventory_observed (n : nat) (cols : list (list (option Q))) :
  length (total_inventory n cols) = n /\
  Forall (fun v : option Q => v <> None) (total_inventory n cols).
Proof.
  unfold total_inventory. split.
  - rewrite length_map. apply length_seq.
  - apply Forall_forall. intros v Hv. apply in_map_iff in Hv.
    destruct Hv as (i & <- & _). discriminate.
Qed.

(** On a series with a value at every date the output is missing exactly
    during the warm-up. *)
Lemma rolling_percentile_observed (series : list (option Q)) (window : Z) :
  (1 <= window)%Z ->
  Forall (fun v : option Q => v <> None) series ->
  exists out,
    rolling_percentile series window = Ok out /\
    length out = length series /\
    forall i, (i < length series)%nat ->
      (nth_error out i = Some None
       <-> (Z.min (Z.of_nat i + 1) window < (window + 1) / 2)%Z) /\
      (nth_error out i <> Some None -> exists v, nth_error out i = Some (Some v)).
Proof.
  intros HW Hfull.
  destruct (rolling_percentile_cells series window HW)
    as (out & Hout & Hlen & Hcells).
  exists out. split; [exact Hout|]. split; [exact Hlen|].
  intros i Hi. destruct (Hcells i Hi) as (cur & _ & Hcell).
  set (x := window_at series (Z.to_nat window) i) in *.
  assert (Hcount : count_valid x = len x).
  { apply count_valid_full. apply window_at_Forall. exact Hfull. }
  assert (Hn : len x = Z.min (Z.of_nat i + 1) window).
  { unfold len, x. rewrite (window_at_length series _ i Hi). lia. }
  rewrite Hcount, Hn in Hcell. rewrite Hcell.
  destruct (Z.leb_spec (window / 2) (Z.min (Z.of_nat i + 1) window));
    destruct (Z.leb_spec window (2 * Z.min (Z.of_nat i + 1) window));
    cbn [andb]; split;
    try (split; intro H';
         [try discriminate|try reflexivity];
         Z.to_euclidean_division_equations; lia);
    try (intro H'; try (eexists; reflexivity); congruence).
Qed.

(** X5: whatever the gaps of the source series, for every window length
    W >= 1 the global percentile is computed over totals that are never
    missing, so its full-history column is missing exactly during the
    warm-up, where min(i+1, W) < ceil(W/2); the returned table is the
    display filter of that full-history table. *)
Theorem global_percentile_warmup (dates : list Z)
    (reindexed : list (list (option Q))) (window display_start : Z) :
  (1 <= window)%Z ->
  let inventory_data := prepare_inventory_data reindexed in
  let total := total_inventory (length dates) inventory_data in
  exists pct,
    rolling_percentile total window = Ok pct /\
    length pct = length dates /\
    calculate_global_percentile dates reindexed window display_start
    = Ok (rows_from g_date display_start
            (global_rows dates inventory_data total pct)) /\
    forall i, (i < length dates)%nat ->
      (exists t, nth_error total i = Some (Some t)) /\
      (nth_error pct i = Some None
       <-> (Z.min (Z.of_nat i + 1) window < (window + 1) / 2)%Z).
Proof.
  intros HW inventory_data total.
  destruct (total_inventory_observed (length dates) inventory_data)
    as [Hlen Hfull]. fold total in Hlen, Hfull.
  destruct (rolling_percentile_observed total window HW Hfull)
    as (pct & Hpct & Hplen & Hcells).
  exists pct. split; [exact Hpct|]. split; [congruence|]. split.
  - unfold calculate_global_percentile. fold inventory_data. fold total.
    rewrite Hpct. reflexivity.
  - intros i Hi. split.
    + unfold total, total_inventory. rewrite nth_error_map.
      rewrite nth_error_seq_0 by exact Hi. eexists. reflexivity.
    + apply Hcells. rewrite Hlen. exact Hi.
Qed.

Lemma global_percentile_warmup_witness :
  exists pct,
    rolling_percentile
      (total_inventory 3 (prepare_inventory_data [[None; Some 4; None]; [Some 1; None; None]]))
      2 = Ok pct /\
    length pct = 3%nat.
Proof.
  assert (HW : (1 <= 2)%Z) by lia.
  destruct (global_percentile_warmup [1; 2; 3]%Z
              [[None; Some 4; None]; [Some 1; None; None]] 2 0 HW)
    as (pct & Hpct & Hlen & _).
  exists pct. split; [exact Hpct|exact Hlen].
Defined.

Lemma global_rows_dates (dates : list Z) (cols : list (list (option Q)))
    (total pct : list (option Q)) :
  map g_date (global_rows dates cols total pct) = dates.
Proof.
  unfold global_rows. rewrite map_map. cbn [g_date].
  apply map_nth_seq.
Qed.

(** X6: on an ascending date axis the displayed table is the
    full-history table without its first k rows, k the number of dates
    before [display_start]: the display window slices the computed
    percentiles and recomputes nothing. *)
Theorem display_window_is_suffix (dates : list Z)
    (reindexed : list (list (option Q))) (window display_start : Z) :
  (1 <= window)%Z ->
  StronglySorted Z.le dates ->
  let inventory_data := prepare_inventory_data reindexed in
  let total := total_inventory (length dates) inventory_data in
  exists pct,
    rolling_percentile total window = Ok pct /\
    calculate_global_percentile dates reindexed window display_start
    = Ok (skipn (length (filter (fun d => (d <? display_start)%Z) dates))
                (global_rows dates inventory_data total pct)).
Proof.
  intros HW Hsorted inventory_data total.
  destruct (total_inventory_observed (length dates) inventory_data)
    as [_ Hfull]. fold total in Hfull.
  destruct (rolling_percentile_observed total window HW Hfull)
    as (pct & Hpct & _).
  exists pct. split; [exact Hpct|].
  unfold calculate_global_percentile. fold inventory_data. fold total.
  rewrite Hpct. cbn [bind]. f_equal.
  rewrite rows_from_sorted by (rewrite global_rows_dates; exact Hsorted).
  f_equal.
  rewrite (filter_map_length (fun d => (d <? display_start)%Z) g_date).
  rewrite global_rows_dates. reflexivity.
Qed.

Lemma display_window_is_suffix_witness :
  exists pct,
    calculate_global_percentile [10; 20; 30]%Z [[Some 4; None; Some 6]] 2 20
    = Ok (skipn 1 (global_rows [10; 20; 30]%Z
                     (prepare_inventory_data [[Some 4; None; Some 6]])
                     (total_inventory 3 (prepare_inventory_data [[Some 4; None; Some 6]]))
                     pct)).
Proof.
  assert (HW : (1 <= 2)%Z) by lia.
  assert (Hs : StronglySorted Z.le [10; 20; 30]%Z).
  { repeat constructor; lia. }
  destruct (display_window_is_suffix [10; 20; 30]%Z [[Some 4; None; Some 6]]
              2 20 HW Hs) as (pct & _ & Hcalc).
  exists pct. exact Hcalc.
Defined.





End PercentileTables.

(** ** Derived metrics and the dashboard ladder *)

Section DerivedMetrics.

Import Factors.

Lemma gt0_iff (c : option Q) :
  gt0 c = true <-> exists x, c = Some x /\ 0 < x.
Proof.
  destruct c as [x|]; simpl.
  - rewrite Qlt_bool_iff. split.
    + intro H. exists x. split; [reflexivity|exact H].
    + intros (y & E & H). injection E as <-. exact H.
  - split; [discriminate|]. intros (y & E & _). discriminate.
Qed.








(** X11: the three threshold ladders that turn a percentile into an
    outlook - the dashboard signal, the signal card and the bar colour -
    test the thresholds in different orders and still agree on every
    percentile. *)
Theorem outlook_ladders_agree (p : Q) :
  Dashboard.get_signal_display p = dashboard_outlook p /\
  Dashboard.get_bar_color (Some p) = Some (dashboard_outlook p).
Proof.
  split; [|reflexivity].
  unfold Dashboard.get_signal_display, dashboard_outlook.
  destruct (Qle_bool p (5 # 100)) eqn:E1; [reflexivity|].
  destruct (Qle_bool p (10 # 100)) eqn:E2;
    destruct (Qle_bool (95 # 100) p) eqn:E3; try reflexivity.
  apply Qle_bool_iff in E2, E3. lra.
Qed.







End DerivedMetrics.

(** ** The signal state machines *)

Section StateMachines.

Import Strategy.

(** X13: missing data.  Over a stretch of dates without a percentile the
    machine emits the position it carries, with the missing-data reason,
    and resumes from that same position afterwards. *)
Theorem missing_data_holds_position (params : BetaStrategyParams)
    (position : Signal) (n : nat) (rest : list (option Q)) :
  scan params position (repeat None n ++ rest)
  = repeat {| percentile := None; signal := position; reason := MissingData |} n
    ++ scan params position rest.
Proof.
  induction n as [|n IH]; [reflexivity|].
  cbn [repeat app scan]. f_equal. exact IH.
Qed.

(** What one step leaves behind, when the thresholds are in order. *)
Lemma transition_zone (params : BetaStrategyParams) (position : Signal) (p : Q) :
  long_entry params <= long_exit params ->
  short_exit params <= short_entry params ->
  match fst (transition params position p) with
  | LONG => p <= long_exit params
  | SHORT => short_exit params <= p
  | FLAT => long_entry params <= p <= short_entry params
  end.
Proof.
  intros Hl Hs. unfold transition.
  destruct position.
  - destruct (Qlt_bool p (short_exit params)) eqn:E1.
    + destruct (Qlt_bool p (long_entry params)) eqn:E2; cbn [fst].
      * apply Qlt_bool_iff in E2. lra.
      * apply Qlt_bool_iff in E1. apply Qlt_bool_false_iff in E2. lra.
    + cbn [fst]. apply Qlt_bool_false_iff in E1. exact E1.
  - destruct (Qlt_bool p (long_entry params)) eqn:E1.
    + cbn [fst]. apply Qlt_bool_iff in E1. lra.
    + destruct (Qlt_bool (short_entry params) p) eqn:E2; cbn [fst].
      * apply Qlt_bool_iff in E2. lra.
      * apply Qlt_bool_false_iff in E1, E2. lra.
  - destruct (Qlt_bool (long_exit params) p) eqn:E1.
    + destruct (Qlt_bool (short_entry params) p) eqn:E2; cbn [fst].
      * apply Qlt_bool_iff in E2. lra.
      * apply Qlt_bool_iff in E1. apply Qlt_bool_false_iff in E2. lra.
    + cbn [fst]. apply Qlt_bool_false_iff in E1. exact E1.
Qed.

(** X14: with thresholds in order (long_entry <= long_exit and
    short_exit <= short_entry), whatever the starting position, every
    emitted row with a percentile p is consistent with it: a LONG row has
    p <= long_exit, a SHORT row has p >= short_exit, a FLAT row has p
    inside [long_entry, short_entry]. *)
Theorem emitted_signal_matches_zone (params : BetaStrategyParams)
    (position : Signal) (pcts : list (option Q)) (row : SignalRow) (p : Q) :
  long_entry params <= long_exit params ->
  short_exit params <= short_entry params ->
  In row (scan params position pcts) ->
  percentile row = Some p ->
  match signal row with
  | LONG => p <= long_exit params
  | SHORT => short_exit params <= p
  | FLAT => long_entry params <= p <= short_entry params
  end.
Proof.
  intros Hl Hs. revert position.
  induction pcts as [|[q|] rest IH]; intros position Hin Hp.
  - contradiction.
  - cbn [scan] in Hin.
    pose proof (transition_zone params position q Hl Hs) as Hz.
    destruct (transition params position q) as [position' why].
    destruct Hin as [<-|Hin].
    + cbn [percentile signal] in *. injection Hp as <-. exact Hz.
    + exact (IH position' Hin Hp).
  - cbn [scan] in Hin. destruct Hin as [<-|Hin].
    + discriminate.
    + exact (IH position Hin Hp).
Qed.

Lemma emitted_signal_matches_zone_witness :
  20 # 100 <= long_exit default_params.
Proof.
  assert (Hl : long_entry default_params <= long_exit default_params)
    by discriminate.
  assert (Hs : short_exit default_params <= short_entry default_params)
    by discriminate.
  assert (Hin : In {| percentile := Some (20 # 100); signal := LONG;
                      reason := HoldLong |}
                   (scan default_params FLAT [Some (3 # 100); Some (20 # 100)])).
  { right. left. reflexivity. }
  exact (emitted_signal_matches_zone default_params FLAT
           [Some (3 # 100); Some (20 # 100)] _ (20 # 100) Hl Hs Hin eq_refl).
Defined.

Lemma scan_step (params : BetaStrategyParams) (position : Signal)
    (cell : option Q) (rest : list (option Q)) :
  exists row,
    scan params position (cell :: rest)
    = row :: scan params (final_position params position [cell]) rest /\
    signal row = final_position params position [cell].
Proof.
  destruct cell as [q|]; cbn [scan final_position].
  - destruct (transition params position q) as [position' why].
    eexists. split; reflexivity.
  - eexists. split; reflexivity.
Qed.

Lemma final_position_cons (params : BetaStrategyParams) (position : Signal)
    (cell : option Q) (rest : list (option Q)) :
  final_position params position (cell :: rest)
  = final_position params (final_position params position [cell]) rest.
Proof.
  destruct cell; reflexivity.
Qed.

Lemma scan_length (params : BetaStrategyParams) (pcts : list (option Q)) :
  forall position, length (scan params position pcts) = length pcts.
Proof.
  induction pcts as [|cell rest IH]; intro position; [reflexivity|].
  destruct (scan_step params position cell rest) as (row & -> & _).
  simpl. f_equal. apply IH.
Qed.

Lemma iloc_last_cons {A : Type} (a : A) (l : list A) :
  l <> [] -> iloc_last (a :: l) = iloc_last l.
Proof.
  destruct l; [congruence|reflexivity].
Qed.

Lemma scan_final_position (params : BetaStrategyParams) (pcts : list (option Q)) :
  forall position,
    pcts <> [] ->
    iloc_last (signals_of (scan params position pcts))
    = Some (final_position params position pcts).
Proof.
  induction pcts as [|cell rest IH]; intros position Hne; [congruence|].
  rewrite (final_position_cons params position cell rest).
  destruct (scan_step params position cell rest) as (row & -> & Hrow).
  unfold signals_of in *. cbn [map]. rewrite Hrow.
  destruct rest as [|cell' rest'].
  - reflexivity.
  - rewrite iloc_last_cons.
    + apply IH. discriminate.
    + intro Hnil. apply (f_equal (@length Signal)) in Hnil.
      rewrite length_map, scan_length in Hnil. discriminate.
Qed.

(** X15: the current signal reported for a strategy - the signal of the
    latest row, FLAT when there is no row - is the position the scan ends
    in, for every percentile column. *)
Theorem current_signal_is_final_position (params : BetaStrategyParams)
    (pcts : list (option Q)) :
  get_current_signal (signals_of (generate_signals params pcts))
  = final_position params FLAT pcts.
Proof.
  unfold get_current_signal, generate_signals.
  destruct pcts as [|cell rest]; [reflexivity|].
  rewrite scan_final_position by discriminate. reflexivity.
Qed.

(** Away from the exit levels, [>=] and [>] agree. *)
Lemma arbitrage_transition_as_beta (a : ArbitrageStrategyParams)
    (position : Signal) (spread : Q) :
  ~ spread == spread_long_exit a -> ~ spread == spread_short_exit a ->
  arbitrage_transition a position spread
  = transition {| long_entry := spread_long_entry a;
                  long_exit := spread_long_exit a;
                  short_entry := spread_short_entry a;
                  short_exit := spread_short_exit a |} position spread.
Proof.
  intros Hl Hs. unfold arbitrage_transition, transition.
  cbn [long_entry long_exit short_entry short_exit].
  assert (E1 : Qle_bool (spread_long_exit a) spread
               = Qlt_bool (spread_long_exit a) spread).
  { destruct (Qlt_bool (spread_long_exit a) spread) eqn:E.
    - apply Qlt_bool_iff in E. apply Qle_bool_iff. lra.
    - apply Qlt_bool_false_iff in E.
      destruct (Qle_bool (spread_long_exit a) spread) eqn:E'; [|reflexivity].
      apply Qle_bool_iff in E'. exfalso. apply Hl. lra. }
  assert (E2 : Qle_bool spread (spread_short_exit a)
               = Qlt_bool spread (spread_short_exit a)).
  { destruct (Qlt_bool spread (spread_short_exit a)) eqn:E.
    - apply Qlt_bool_iff in E. apply Qle_bool_iff. lra.
    - apply Qlt_bool_false_iff in E.
      destruct (Qle_bool spread (spread_short_exit a)) eqn:E'; [|reflexivity].
      apply Qle_bool_iff in E'. exfalso. apply Hs. lra. }
  destruct position; rewrite ?E1, ?E2; reflexivity.
Qed.

(** X16: the arbitrage machine is the hysteresis machine of the trend
    strategy run on the spread with the same four thresholds, as long as
    no spread equals an exit level (where the arbitrage machine closes
    and the trend machine holds). *)
Theorem arbitrage_scan_as_beta (a : ArbitrageStrategyParams)
    (spreads : list (option Q)) :
  (forall s, In (Some s) spreads ->
     ~ s == spread_long_exit a /\ ~ s == spread_short_exit a) ->
  forall position,
    arbitrage_scan a position spreads
    = scan {| long_entry := spread_long_entry a;
              long_exit := spread_long_exit a;
              short_entry := spread_short_entry a;
              short_exit := spread_short_exit a |} position spreads.
Proof.
  induction spreads as [|[s|] rest IH]; intros Hoff position.
  - reflexivity.
  - cbn [arbitrage_scan scan].
    destruct (Hoff s (or_introl eq_refl)) as [Hl Hs].
    rewrite (arbitrage_transition_as_beta a position s Hl Hs).
    destruct (transition _ position s) as [position' why].
    f_equal. apply IH. intros s' Hs'. apply Hoff. right. exact Hs'.
  - cbn [arbitrage_scan scan]. f_equal.
    apply IH. intros s' Hs'. apply Hoff. right. exact Hs'.
Qed.

Lemma arbitrage_scan_as_beta_witness :
  arbitrage_scan default_arbitrage_params FLAT [Some (-30 # 100); Some (10 # 100)]
  = scan {| long_entry := -20 # 100; long_exit := 0;
            short_entry := 20 # 100; short_exit := 0 |}
         FLAT [Some (-30 # 100); Some (10 # 100)].
Proof.
  apply (arbitrage_scan_as_beta default_arbitrage_params
           [Some (-30 # 100); Some (10 # 100)]).
  intros s [E|[E|[]]]; injection E as <-; split; discriminate.
Defined.

(** At an exit level the two machines part: the arbitrage machine closes
    a long at a spread of exactly 0, the trend machine would hold it. *)
Remark arbitrage_closes_at_exit :
  arbitrage_transition default_arbitrage_params LONG 0 = (FLAT, CloseLong) /\
  transition {| long_entry := -20 # 100; long_exit := 0;
                short_entry := 20 # 100; short_exit := 0 |} LONG 0
  = (LONG, HoldLong).
Proof.
  split; reflexivity.
Qed.

Lemma arbitrage_scan_rows (a : ArbitrageStrategyParams) (spreads : list Q) :
  forall position,
    length (arbitrage_scan a position (map Some spreads)) = length spreads /\
    forall row, In row (arbitrage_scan a position (map Some spreads)) ->
      reason row <> MissingData /\ exists s, percentile row = Some s.
Proof.
  induction spreads as [|s rest IH]; intro position.
  - split; [reflexivity|]. intros row [].
  - cbn [map arbitrage_scan].
    destruct (arbitrage_transition a position s) as [position' why] eqn:E.
    destruct (IH position') as [Hlen Hrows]. split.
    + simpl. f_equal. exact Hlen.
    + intros row [<-|Hin]; [|exact (Hrows row Hin)].
      cbn [reason percentile]. split; [|exists s; reflexivity].
      unfold arbitrage_transition in E.
      destruct position;
        repeat match type of E with
               | context [if ?c then _ else _] => destruct c
               end; injection E as _ <-; discriminate.
Qed.

Lemma ffill_from_some {A : Type} (s : list (option A)) :
  forall x : A, Forall (fun v => isna v = false) (ffill_from (Some x) s).
Proof.
  induction s as [|[v|] t IH]; intro x; simpl; constructor;
    try reflexivity; apply IH.
Qed.

Lemma complete_rows_kept (xs ys : list (option Q)) :
  Forall (fun v => isna v = false) xs ->
  Forall (fun v => isna v = false) ys ->
  length (flat_map (fun cl : option Q * option Q =>
                      match cl with
                      | (Some c, Some l) => [(c, l, c - l)]
                      | _ => []
                      end) (combine xs ys))
  = Nat.min (length xs) (length ys).
Proof.
  intro Hx. revert ys. induction Hx as [|x xs Hx0 _ IH]; intros ys Hy.
  - reflexivity.
  - destruct Hy as [|y ys Hy0 Hy]; [reflexivity|].
    destruct x as [c|]; [|discriminate]. destruct y as [l|]; [|discriminate].
    cbn [combine flat_map app length Nat.min]. f_equal. apply IH. exact Hy.
Qed.

(** X17: the arbitrage strategy never emits a missing-data row: the
    joined percentiles are forward filled and the incomplete rows are
    dropped before the scan, so every signal row carries a spread; and
    once both exchanges have a percentile at the first date, every date
    yields a signal row, later gaps being filled forward. *)
Theorem arbitrage_rows_always_have_spread (a : ArbitrageStrategyParams)
    (joined : list (option Q * option Q)) :
  (forall row, In row (arbitrage_generate_signals a joined) ->
     reason row <> MissingData /\ exists s, percentile row = Some s) /\
  (forall c l rest, joined = (Some c, Some l) :: rest ->
     length (arbitrage_generate_signals a joined) = length joined).
Proof.
  unfold arbitrage_generate_signals.
  set (spreads := map (fun r : Q * Q * Q => snd r) (source_spreads joined)).
  assert (Hmap : map (fun r : Q * Q * Q => Some (snd r)) (source_spreads joined)
                 = map Some spreads).
  { unfold spreads. rewrite map_map. reflexivity. }
  rewrite Hmap. destruct (arbitrage_scan_rows a spreads FLAT) as [Hlen Hrows].
  split; [exact Hrows|].
  intros c l rest ->. rewrite Hlen. unfold spreads. rewrite length_map.
  unfold source_spreads, ffill. cbn [map fst snd ffill_from combine flat_map app length].
  f_equal. rewrite complete_rows_kept by apply ffill_from_some.
  rewrite !ffill_from_length, !length_map. lia.
Qed.

Lemma arbitrage_rows_always_have_spread_witness :
  length (arbitrage_generate_signals default_arbitrage_params
            [(Some (1 # 2), Some (1 # 4)); (None, Some (3 # 4)); (None, None)])
  = 3%nat.
Proof.
  exact (proj2 (arbitrage_rows_always_have_spread default_arbitrage_params
                  [(Some (1 # 2), Some (1 # 4)); (None, Some (3 # 4)); (None, None)])
               (1 # 2) (1 # 4) [(None, Some (3 # 4)); (None, None)] eq_refl).
Defined.

Lemma event_scan_never_short (params : EventStrategyParams)
    (data : list SqueezeRow) :
  forall position, position <> SHORT ->
    Forall (fun r => fst r <> SHORT) (event_scan params position data).
Proof.
  induction data as [|row rest IH]; intros position Hpos; [constructor|].
  cbn [event_scan]. destruct (divergence row) as [d|].
  - destruct (event_transition params position row d) as [position' why] eqn:E.
    assert (Hnext : position' <> SHORT).
    { unfold event_transition in E.
      destruct position; [congruence| |];
        repeat match type of E with
               | context [if ?c then _ else _] => destruct c
               end; injection E as <- _; discriminate. }
    constructor; [exact Hnext|exact (IH position' Hnext)].
  - constructor; [exact Hpos|exact (IH position Hpos)].
Qed.

(** X18: the event strategy is long-only: whatever the data and the
    thresholds, no row of its signals is SHORT. *)
Theorem event_signals_never_short (params : EventStrategyParams)
    (data : list SqueezeRow) :
  Forall (fun r => fst r <> SHORT) (event_generate_signals params data).
Proof.
  apply event_scan_never_short. discriminate.
Qed.

(** X19: the auxiliary condition never closes a position: from LONG, as
    long as no divergence falls below the exit level, every row stays
    LONG whatever the two change columns hold. *)
Theorem event_long_held_above_exit (params : EventStrategyParams)
    (data : list SqueezeRow) :
  (forall row d, In row data -> divergence row = Some d ->
     divergence_long_exit params <= d) ->
  map fst (event_scan params LONG data) = repeat LONG (length data).
Proof.
  induction data as [|row rest IH]; intro Habove; [reflexivity|].
  cbn [event_scan]. destruct (divergence row) as [d|] eqn:Hd.
  - unfold event_transition.
    destruct (Qlt_bool d (divergence_long_exit params)) eqn:E.
    + apply Qlt_bool_iff in E.
      pose proof (Habove row d (or_introl eq_refl) Hd). lra.
    + cbn [map fst length repeat]. f_equal. apply IH.
      intros row' d' Hin. apply Habove. right. exact Hin.
  - cbn [map fst length repeat]. f_equal. apply IH.
    intros row' d' Hin. apply Habove. right. exact Hin.
Qed.

Lemma event_long_held_above_exit_witness :
  map fst (event_scan default_event_params LONG
             [{| divergence := Some (6 # 10); slv_change := Some (-1);
                 comex_change := Some 1 |};
              {| divergence := None; slv_change := None; comex_change := None |}])
  = repeat LONG 2.
Proof.
  apply (event_long_held_above_exit default_event_params
           [{| divergence := Some (6 # 10); slv_change := Some (-1);
               comex_change := Some 1 |};
            {| divergence := None; slv_change := None; comex_change := None |}]).
  intros row d [<-|[<-|[]]] Hd; [|discriminate].
  injection Hd as <-. discriminate.
Defined.

(** X20: the three counters of the signal summary partition the
    strategies: long, short and flat counts add up to the total. *)
Theorem signal_summary_partitions (current : list Signal) :
  (long_count (get_signal_summary current)
   + short_count (get_signal_summary current)
   + flat_count (get_signal_summary current)
   = total_strategies (get_signal_summary current))%Z.
Proof.
  unfold get_signal_summary, len.
  cbn [long_count short_count flat_count total_strategies].
  induction current as [|s rest IH]; [reflexivity|].
  destruct s; cbn [filter signal_eqb length]; lia.
Qed.

End StateMachines.

(** ** Whole backtests *)

Section WholeBacktests.

Import Backtest.

Lemma zip_with_In {A B C : Type} (f : A -> B -> C) (l : list A) (m : list B)
    (c : C) :
  In c (zip_with f l m) -> exists a b, In a l /\ In b m /\ c = f a b.
Proof.
  revert m. induction l as [|a l IH]; intros [|b m] Hin; try contradiction.
  destruct Hin as [<-|Hin].
  - exists a, b. repeat split; left; reflexivity.
  - destruct (IH m Hin) as (a' & b' & Ha & Hb & E).
    exists a', b'. repeat split; [right; exact Ha|right; exact Hb|exact E].
Qed.

Lemma shift_In {A : Type} (l : list A) (o : option A) :
  In o (shift l) -> o = None \/ exists a, o = Some a /\ In a l.
Proof.
  unfold shift. intro Hin.
  assert (Hin' : In o (None :: map Some l)).
  { rewrite <- (firstn_skipn (length l) (None :: map Some l)).
    apply in_or_app. left. exact Hin. }
  destruct Hin' as [<-|Hin']; [left; reflexivity|].
  apply in_map_iff in Hin'. destruct Hin' as (a & <- & Ha).
  right. exists a. split; [reflexivity|exact Ha].
Qed.

Lemma lagged_position_In (signals : list Z) (p : Z) :
  In p (lagged_position signals) -> p = 0%Z \/ In p signals.
Proof.
  unfold lagged_position. intro Hin. apply in_map_iff in Hin.
  destruct Hin as (o & <- & Ho). apply shift_In in Ho.
  destruct Ho as [->|(a & -> & Ha)]; [left; reflexivity|right; exact Ha].
Qed.

Lemma nth_Forall {A : Type} (P : A -> Prop) (l : list A) (d : A) (t : nat) :
  Forall P l -> (t < length l)%nat -> P (nth t l d).
Proof.
  intros Hall Ht. apply (proj1 (Forall_forall P l) Hall). apply nth_In. exact Ht.
Qed.

Lemma cumprod_from_ones (l : list Q) :
  forall acc, acc == 1 -> Forall (fun x => x == 1) l ->
    Forall (fun x => x == 1) (cumprod_from acc l).
Proof.
  induction l as [|x l IH]; intros acc Hacc Hall; [constructor|].
  apply Forall_cons_iff in Hall. destruct Hall as [Hx Hall].
  assert (Hax : acc * x == 1) by (rewrite Hacc, Hx; reflexivity).
  cbn [cumprod_from]. constructor; [exact Hax|exact (IH _ Hax Hall)].
Qed.

Lemma cumprod_ones (l : list Q) :
  Forall (fun x => x == 1) l -> Forall (fun x => x == 1) (cumprod l).
Proof.
  intro Hall. destruct l as [|x l]; [constructor|].
  apply Forall_cons_iff in Hall. destruct Hall as [Hx Hall].
  cbn [cumprod]. constructor; [exact Hx|exact (cumprod_from_ones l x Hx Hall)].
Qed.

Lemma cummax_from_ones (l : list Q) :
  forall acc, acc == 1 -> Forall (fun x => x == 1) l ->
    Forall (fun x => x == 1) (cummax_from acc l).
Proof.
  induction l as [|x l IH]; intros acc Hacc Hall; [constructor|].
  apply Forall_cons_iff in Hall. destruct Hall as [Hx Hall].
  assert (Hax : Qmax acc x == 1).
  { destruct (Q.max_spec acc x) as [[_ ->]|[_ ->]]; assumption. }
  cbn [cummax_from]. constructor; [exact Hax|exact (IH _ Hax Hall)].
Qed.

Lemma cummax_ones (l : list Q) :
  Forall (fun x => x == 1) l -> Forall (fun x => x == 1) (cummax l).
Proof.
  intro Hall. destruct l as [|x l]; [constructor|].
  apply Forall_cons_iff in Hall. destruct Hall as [Hx Hall].
  cbn [cummax]. constructor; [exact Hx|exact (cummax_from_ones l x Hx Hall)].
Qed.

Variable log : Q -> option Q.

Lemma run_market (config : BacktestConfig) (df : list Bar) (res : Results) :
  run log config df = Ok res ->
  cumulative_market res
  = cumprod (map (fun m => 1 + fillna 0 m) (market_return res)) /\
  length (cumulative_market res) = length df.
Proof.
  intro Hres.
  destruct (run_lengths log _ _ _ Hres) as (Lmr & _).
  revert Hres. unfold run. destruct (len df <? 2)%Z; [discriminate|].
  intro H. injection H as <-. cbn in *. split; [reflexivity|].
  rewrite cumprod_length, length_map. exact Lmr.
Qed.

(** X21: a strategy that never takes a position costs and earns nothing.
    When every raw signal is 0, whatever the prices and the cost rates,
    the equity stays at 1 and the drawdown at 0 on every date, no trade
    is counted, the trade statistics are all 0 and the maximum drawdown
    duration is 0. *)
Theorem flat_signals_leave_equity_at_one (config : BacktestConfig)
    (df : list Bar) :
  (2 <= length df)%nat ->
  (forall b, In b df -> signal b = 0%Z) ->
  exists res,
    run log config df = Ok res /\
    (forall t, (t < length df)%nat ->
       nth t (cumulative_strategy res) 0 == 1 /\
       nth t (drawdown res) 0 == 0) /\
    total_trades res = 0%Z /\
    _calc_trade_stats res = (0, 0, 0) /\
    _calc_max_drawdown_duration res = 0%Z.
Proof.
  intros Hlen Hflat. destruct (run_total log config df Hlen) as [res Hres].
  exists res. split; [exact Hres|].
  destruct (run_position log _ _ _ Hres) as [_ Hpos].
  destruct (run_columns log _ _ _ Hres)
    as (Hmr & Hchg & Hcost & Hsr & Hcs & Hpk & Hdd).
  destruct (run_lengths log _ _ _ Hres)
    as (Lmr & Lpos & Lchg & Lcost & Lsr & Lcs & Lpk & Ldd).
  assert (Fpos : Forall (fun p => p = 0%Z) (position res)).
  { apply Forall_forall. intros p Hp. rewrite Hpos in Hp.
    apply lagged_position_In in Hp. destruct Hp as [->|Hp]; [reflexivity|].
    apply in_map_iff in Hp. destruct Hp as (b & <- & Hb). exact (Hflat b Hb). }
  assert (Fchg : Forall (fun c => c = 0) (position_change res)).
  { apply Forall_forall. intros c Hc. rewrite Hchg in Hc. unfold abs_diff in Hc.
    apply zip_with_In in Hc. destruct Hc as (cur & prev & Hcur & Hprev & ->).
    rewrite (proj1 (Forall_forall _ _) Fpos cur Hcur).
    apply shift_In in Hprev. destruct Hprev as [->|(p & -> & Hp)];
      [reflexivity|].
    rewrite (proj1 (Forall_forall _ _) Fpos p Hp). reflexivity. }
  assert (Hno : forall c, In c (position_change res) -> Qlt_bool 0 c = false).
  { intros c Hc. rewrite (proj1 (Forall_forall _ _) Fchg c Hc). reflexivity. }
  assert (Htrades : total_trades res = 0%Z).
  { unfold total_trades. rewrite filter_none; [reflexivity|exact Hno]. }
  assert (Hidx : trade_indices res = []).
  { unfold trade_indices. apply filter_none. intros i Hi.
    apply in_seq in Hi. apply Hno. apply nth_In. lia. }
  assert (Fsr : Forall (fun r => 1 + fillna 0 r == 1) (strategy_return res)).
  { apply Forall_forall. intros r Hr. rewrite Hsr in Hr.
    apply zip_with_In in Hr. destruct Hr as ([p m] & c & Hpm & Hc & ->).
    apply in_combine_l in Hpm.
    rewrite (proj1 (Forall_forall _ _) Fpos p Hpm).
    rewrite Hcost in Hc. apply in_map_iff in Hc. destruct Hc as (g & <- & Hg).
    rewrite (proj1 (Forall_forall _ _) Fchg g Hg).
    destruct m as [m|]; cbn; ring. }
  assert (Fcs : Forall (fun x => x == 1) (cumulative_strategy res)).
  { rewrite Hcs. apply cumprod_ones. apply Forall_map. exact Fsr. }
  assert (Fpk : Forall (fun x => x == 1) (strategy_peak res)).
  { rewrite Hpk. apply cummax_ones. exact Fcs. }
  assert (Fdd : Forall (fun d => d == 0) (drawdown res)).
  { apply Forall_forall. intros d Hd. rewrite Hdd in Hd.
    apply zip_with_In in Hd. destruct Hd as (c & p & Hc & Hp & ->).
    rewrite (proj1 (Forall_forall _ _) Fcs c Hc).
    rewrite (proj1 (Forall_forall _ _) Fpk p Hp). reflexivity. }
  split.
  { intros t Ht. split.
    - apply (nth_Forall (fun x => x == 1)); [exact Fcs|lia].
    - apply (nth_Forall (fun d => d == 0)); [exact Fdd|lia]. }
  split; [exact Htrades|]. split.
  { unfold _calc_trade_stats. rewrite Hidx. reflexivity. }
  unfold _calc_max_drawdown_duration, max_run_by_groups.
  replace (existsb (fun b => b) (map (fun d => Qlt_bool d 0) (drawdown res)))
    with false; [reflexivity|].
  symmetry. apply not_true_is_false. intro Hex.
  apply existsb_exists in Hex. destruct Hex as (b & Hb & ->).
  apply in_map_iff in Hb. destruct Hb as (d & Hd & Hin).
  apply Qlt_bool_iff in Hd.
  pose proof (proj1 (Forall_forall _ _) Fdd d Hin) as Hz. simpl in Hz. lra.
Qed.

Lemma pointwise_Forall2 (l l' : list Q) :
  length l = length l' ->
  (forall t, (t < length l)%nat -> nth t l 0 == nth t l' 0) ->
  Forall2 Qeq l l'.
Proof.
  revert l'. induction l as [|x l IH]; intros [|y l'] Hlen Hpt;
    try discriminate; constructor.
  - exact (Hpt 0%nat (Nat.lt_0_succ _)).
  - apply IH; [simpl in Hlen; lia|].
    intros t Ht. apply (Hpt (S t)). simpl. lia.
Qed.

Lemma Forall2_pointwise (l l' : list Q) (t : nat) :
  Forall2 Qeq l l' -> nth t l 0 == nth t l' 0.
Proof.
  intro H. revert t. induction H as [|x y l l' Hxy _ IH]; intro t.
  - destruct t; reflexivity.
  - destruct t as [|t]; [exact Hxy|exact (IH t)].
Qed.

Lemma cumprod_from_Forall2 (l l' : list Q) :
  Forall2 Qeq l l' ->
  forall a a', a == a' -> Forall2 Qeq (cumprod_from a l) (cumprod_from a' l').
Proof.
  induction 1 as [|x y l l' Hxy _ IH]; intros a a' Ha; [constructor|].
  assert (Hax : a * x == a' * y) by (rewrite Ha, Hxy; reflexivity).
  cbn [cumprod_from]. constructor; [exact Hax|exact (IH _ _ Hax)].
Qed.

Lemma cumprod_Forall2 (l l' : list Q) :
  Forall2 Qeq l l' -> Forall2 Qeq (cumprod l) (cumprod l').
Proof.
  intro H. destruct H as [|x y l l' Hxy H]; [constructor|].
  cbn [cumprod]. constructor; [exact Hxy|exact (cumprod_from_Forall2 _ _ H _ _ Hxy)].
Qed.

(** X22: without trading costs, a strategy that is always long earns the
    market.  When every raw signal is 1 and the two cost rates add up to
    0, the strategy equity equals the buy-and-hold equity on every date
    (the position is 0 on the first date, where there is no return). *)
Theorem long_without_costs_tracks_benchmark (config : BacktestConfig)
    (df : list Bar) :
  (2 <= length df)%nat ->
  (forall b, In b df -> signal b = 1%Z) ->
  commission_rate config + slippage_rate config == 0 ->
  exists res,
    run log config df = Ok res /\
    forall t,
      nth t (cumulative_strategy res) 0 == nth t (cumulative_market res) 0.
Proof.
  intros Hlen Hlong Hfree. destruct (run_total log config df Hlen) as [res Hres].
  exists res. split; [exact Hres|].
  destruct (run_position log _ _ _ Hres) as [_ Hpos].
  destruct (run_columns log _ _ _ Hres) as (Hmr & _ & _ & _ & Hcs & _).
  destruct (run_lengths log _ _ _ Hres) as (Lmr & Lpos & _ & _ & Lsr & _).
  destruct (run_market _ _ _ Hres) as [Hcm _].
  intro t. rewrite Hcs, Hcm. apply Forall2_pointwise. apply cumprod_Forall2.
  apply pointwise_Forall2; [rewrite !length_map; congruence|].
  intros k Hk. rewrite length_map, Lsr in Hk.
  assert (Hcell : forall col : list (option Q), (k < length col)%nat ->
            nth k (map (fun r => 1 + fillna 0 r) col) 0
            = 1 + fillna 0 (nth k col None)).
  { intros col Hcol.
    rewrite (nth_indep _ 0 ((fun r => 1 + fillna 0 r) None))
      by (rewrite length_map; exact Hcol).
    exact (map_nth (fun r => 1 + fillna 0 r) col None k). }
  rewrite !Hcell by lia.
  rewrite (run_strategy_return log _ _ _ k Hres Hk).
  destruct k as [|k].
  - replace (nth 0 (market_return res) None) with (@None Q); [reflexivity|].
    rewrite Hmr. destruct df as [|b df]; [simpl in Hlen; lia|]. reflexivity.
  - assert (Hp : nth (S k) (position res) 0%Z = 1%Z).
    { apply nth_error_nth_default. rewrite Hpos.
      rewrite lagged_position_next by (rewrite length_map; exact Hk).
      rewrite nth_error_map.
      destruct (nth_error df k) as [b|] eqn:Hb.
      - cbn [option_map]. f_equal. apply Hlong. exact (nth_error_In _ _ Hb).
      - apply nth_error_None in Hb. lia. }
    assert (Hc : nth (S k) (trade_cost res) 0 == 0).
    { rewrite (run_cost_next log _ _ _ k Hres Hk), Hfree. ring. }
    rewrite Hp. destruct (nth (S k) (market_return res) None) as [m|];
      cbn [option_map fillna]; [|reflexivity].
    rewrite Hc. ring.
Qed.

Lemma run_drawdown_nonpos (config : BacktestConfig) (df : list Bar)
    (res : Results) (t : nat) :
  run log config df = Ok res ->
  (t < length df)%nat ->
  nth t (drawdown res) 0 <= 0.
Proof.
  intros Hres Ht.
  destruct (run_lengths log _ _ _ Hres)
    as (_ & _ & _ & _ & _ & Lcs & Lpk & Ldd).
  destruct (run_columns log _ _ _ Hres) as (_ & _ & _ & _ & _ & Hpk & Hdd).
  pose proof (run_equity_first log _ _ _ Hres) as Hfirst.
  assert (Hcell : nth_error (strategy_peak res) t
                  = Some (nth t (strategy_peak res) 0)).
  { apply nth_error_nth'. lia. }
  rewrite Hpk in Hcell at 1.
  destruct (cummax_spec _ _ _ Hcell) as [Hub _].
  assert (Hbound : forall s, (s <= t)%nat ->
            nth s (cumulative_strategy res) 0 <= nth t (strategy_peak res) 0).
  { intros s Hs. apply (Hub s); [exact Hs|]. apply nth_error_nth'. lia. }
  assert (Hpos : 0 < nth t (strategy_peak res) 0).
  { pose proof (Hbound 0%nat (Nat.le_0_l t)). lra. }
  assert (Hdd_eq : nth t (drawdown res) 0
                   = nth t (cumulative_strategy res) 0
                     / nth t (strategy_peak res) 0 - 1).
  { apply nth_error_nth_default. rewrite Hdd, nth_error_zip_with.
    rewrite (nth_error_nth' (cumulative_strategy res) 0) by lia.
    rewrite (nth_error_nth' (strategy_peak res) 0) by lia. reflexivity. }
  rewrite Hdd_eq.
  assert (nth t (cumulative_strategy res) 0 / nth t (strategy_peak res) 0 <= 1).
  { apply Qle_shift_div_r; [exact Hpos|].
    pose proof (Hbound t (Nat.le_refl t)). lra. }
  lra.
Qed.

Lemma fold_min_spec (t : list Q) :
  forall x,
    (forall y, In y (x :: t) -> fold_left Qmin t x <= y) /\
    (exists y, In y (x :: t) /\ fold_left Qmin t x == y).
Proof.
  induction t as [|a t IH]; intro x.
  - simpl. split.
    + intros y [<-|[]]. lra.
    + exists x. split; [left; reflexivity|reflexivity].
  - cbn [fold_left]. destruct (IH (Qmin x a)) as [Hlb (y & Hy & Ey)].
    assert (H0 : fold_left Qmin t (Qmin x a) <= Qmin x a)
      by (apply Hlb; left; reflexivity).
    pose proof (Q.le_min_l x a) as Hl. pose proof (Q.le_min_r x a) as Hr.
    split.
    + intros z [<-|[<-|Hz]]; [lra|lra|]. apply Hlb. right. exact Hz.
    + destruct Hy as [<-|Hy].
      * destruct (Q.min_spec x a) as [[_ E]|[_ E]].
        -- exists x. split; [left; reflexivity|]. rewrite Ey. exact E.
        -- exists a. split; [right; left; reflexivity|]. rewrite Ey. exact E.
      * exists y. split; [right; right; exact Hy|exact Ey].
Qed.

(** X23: the maximum drawdown of a backtest is the most negative value
    of the drawdown column: it is attained at some date, bounds every
    date from below and is at most 0; and it is 0 exactly when the maximum
    drawdown duration is 0, so the Calmar guard fires exactly for
    backtests that are never under water. *)
Theorem max_drawdown_is_deepest (config : BacktestConfig) (df : list Bar) :
  (2 <= length df)%nat ->
  exists res m,
    run log config df = Ok res /\
    max_drawdown res = Some m /\
    m <= 0 /\
    (forall t, (t < length df)%nat -> m <= nth t (drawdown res) 0) /\
    (exists t, (t < length df)%nat /\ m == nth t (drawdown res) 0) /\
    (m == 0 <-> _calc_max_drawdown_duration res = 0%Z).
Proof.
  intro Hlen. destruct (run_total log config df Hlen) as [res Hres].
  destruct (run_lengths log _ _ _ Hres) as (_ & _ & _ & _ & _ & _ & _ & Ldd).
  destruct (drawdown res) as [|d0 rest] eqn:Edd; [simpl in Ldd; lia|].
  exists res, (fold_left Qmin rest d0).
  split; [exact Hres|].
  split; [unfold max_drawdown; rewrite Edd; reflexivity|].
  destruct (fold_min_spec rest d0) as [Hlb (y & Hy & Ey)].
  rewrite <- Edd in Hy, Hlb.
  assert (Hnonpos : forall t, (t < length df)%nat -> nth t (drawdown res) 0 <= 0)
    by (intros t Ht; exact (run_drawdown_nonpos _ _ _ t Hres Ht)).
  assert (Hat : exists t, (t < length df)%nat /\ y = nth t (drawdown res) 0).
  { destruct (In_nth _ _ 0 Hy) as (t & Ht & E). exists t.
    split; [rewrite Edd in Ht; rewrite <- Ldd; exact Ht|symmetry; exact E]. }
  assert (Hbelow : forall t, (t < length df)%nat ->
            fold_left Qmin rest d0 <= nth t (drawdown res) 0).
  { intros t Ht. apply Hlb. apply nth_In. rewrite Edd, Ldd. exact Ht. }
  destruct Hat as (ty & Hty & Ey').
  split.
  { rewrite Ey, Ey'. apply Hnonpos. exact Hty. }
  split; [exact Hbelow|]. split.
  { exists ty. split; [exact Hty|]. rewrite Ey, Ey'. reflexivity. }
  destruct (drawdown_duration_windows res) as (H0 & (start & Hstart) & Hub).
  split.
  - intro Hm.
    destruct (Z.eq_dec (_calc_max_drawdown_duration res) 0) as [E|E]; [exact E|].
    exfalso. assert (Hneg : nth (start + 0) (drawdown res) 0 < 0)
      by (apply Hstart; lia).
    destruct (Nat.lt_ge_cases (start + 0) (length df)) as [Hin|Hout].
    + pose proof (Hbelow _ Hin). lra.
    + rewrite nth_overflow in Hneg by (rewrite Edd, Ldd; exact Hout).
      revert Hneg. apply Qlt_irrefl.
  - intro Hd.
    assert (Hno : ~ nth ty (drawdown res) 0 < 0).
    { intro Hneg.
      assert (Z.of_nat 1 <= _calc_max_drawdown_duration res)%Z.
      { apply (Hub ty). intros k Hk. assert (k = 0%nat) by lia. subst k.
        rewrite Nat.add_0_r. exact Hneg. }
      lia. }
    rewrite Ey, Ey'. pose proof (Hnonpos ty Hty). lra.
Qed.

End WholeBacktests.

(** Three dates without a signal. *)
Lemma flat_signals_leave_equity_at_one_witness :
  exists res,
    Backtest.run Backtest.log_first_order Backtest.default_config
      [Backtest.bar 100 0; Backtest.bar 90 0; Backtest.bar 120 0] = Ok res /\
    Backtest.total_trades res = 0%Z.
Proof.
  assert (Hlen : (2 <= length [Backtest.bar 100 0; Backtest.bar 90 0;
                               Backtest.bar 120 0])%nat)
    by (simpl; lia).
  assert (Hflat : forall b,
            In b [Backtest.bar 100 0; Backtest.bar 90 0; Backtest.bar 120 0] ->
            Backtest.signal b = 0%Z).
  { intros b [<-|[<-|[<-|[]]]]; reflexivity. }
  destruct (flat_signals_leave_equity_at_one Backtest.log_first_order
              Backtest.default_config _ Hlen Hflat)
    as (res & Hres & _ & Htrades & _).
  exists res. split; [exact Hres|exact Htrades].
Defined.

(** Scenario C of the specification: prices 100, 110, 99, always long,
    no costs. *)
Lemma long_without_costs_tracks_benchmark_witness :
  exists res,
    Backtest.run Backtest.log_first_order Backtest.zero_cost_config
      [Backtest.bar 100 1; Backtest.bar 110 1; Backtest.bar 99 1] = Ok res /\
    nth 2 (Backtest.cumulative_strategy res) 0
    == nth 2 (Backtest.cumulative_market res) 0.
Proof.
  assert (Hlen : (2 <= length [Backtest.bar 100 1; Backtest.bar 110 1;
                               Backtest.bar 99 1])%nat)
    by (simpl; lia).
  assert (Hlong : forall b,
            In b [Backtest.bar 100 1; Backtest.bar 110 1; Backtest.bar 99 1] ->
            Backtest.signal b = 1%Z).
  { intros b [<-|[<-|[<-|[]]]]; reflexivity. }
  assert (Hfree : Backtest.commission_rate Backtest.zero_cost_config
                  + Backtest.slippage_rate Backtest.zero_cost_config == 0)
    by reflexivity.
  destruct (long_without_costs_tracks_benchmark Backtest.log_first_order
              Backtest.zero_cost_config _ Hlen Hlong Hfree)
    as (res & Hres & Heq).
  exists res. split; [exact Hres|exact (Heq 2%nat)].
Defined.

(** On the sample table. *)
Lemma max_drawdown_is_deepest_witness :
  exists res m,
    Backtest.run Backtest.log_first_order Backtest.default_config Backtest.sample_table = Ok res /\
    Backtest.max_drawdown res = Some m /\ m <= 0.
Proof.
  assert (Hlen : (2 <= length Backtest.sample_table)%nat) by (simpl; lia).
  destruct (max_drawdown_is_deepest Backtest.log_first_order Backtest.default_config Backtest.sample_table Hlen)
    as (res & m & Hres & Hm & Hle & _).
  exists res, m. split; [exact Hres|]. split; [exact Hm|exact Hle].
Defined.

(** ** Preparing the merged table *)

Section PrepareData.

Import Backtest.

Lemma flat_map_ext_In {A B : Type} (f g : A -> list B) (l : list A) :
  (forall a, In a l -> f a = g a) -> flat_map f l = flat_map g l.
Proof.
  induction l as [|a l IH]; intro H; [reflexivity|].
  simpl. rewrite (H a (or_introl eq_refl)). f_equal.
  apply IH. intros x Hx. apply H. right. exact Hx.
Qed.

Lemma filter_on_axis (prices : list (Z * Q)) (signals : list (Z * Z)) (d : Z) :
  In d (map fst prices) ->
  filter (fun ds => (fst ds =? d)%Z)
         (filter (fun ds => existsb (Z.eqb (fst ds)) (map fst prices)) signals)
  = filter (fun ds => (fst ds =? d)%Z) signals.
Proof.
  intro Hd. induction signals as [|a t IH]; [reflexivity|].
  cbn [filter].
  destruct (existsb (Z.eqb (fst a)) (map fst prices)) eqn:E.
  - cbn [filter]. destruct (fst a =? d)%Z; [f_equal|]; exact IH.
  - destruct (Z.eqb_spec (fst a) d) as [Ea|_]; [|exact IH].
    exfalso. assert (existsb (Z.eqb (fst a)) (map fst prices) = true).
    { apply existsb_exists. exists d. split; [exact Hd|].
      apply Z.eqb_eq. exact Ea. }
    congruence.
Qed.

(** X24: signals dated off the price axis are never used: dropping every
    signal whose date is not a price date leaves the prepared table
    unchanged, whatever the date bounds. *)
Theorem off_axis_signals_are_ignored (start_date end_date : option Z)
    (price_series : list (Z * Q)) (signals_df : list (Z * Z)) :
  prepare_data start_date end_date price_series
    (filter (fun ds => existsb (Z.eqb (fst ds)) (map fst price_series)) signals_df)
  = prepare_data start_date end_date price_series signals_df.
Proof.
  unfold prepare_data.
  assert (Hmerge :
    merge_left price_series
      (filter (fun ds => existsb (Z.eqb (fst ds)) (map fst price_series)) signals_df)
    = merge_left price_series signals_df).
  { unfold merge_left. apply flat_map_ext_In. intros dp Hdp.
    rewrite filter_on_axis; [reflexivity|]. apply in_map. exact Hdp. }
  rewrite Hmerge. reflexivity.
Qed.

Lemma filter_unique_date (signals : list (Z * Z)) (d : Z) :
  NoDup (map fst signals) ->
  (filter (fun ds => (fst ds =? d)%Z) signals = [] /\
   forall s, ~ In (d, s) signals) \/
  (exists s, filter (fun ds => (fst ds =? d)%Z) signals = [(d, s)] /\
             forall s', In (d, s') signals -> s' = s).
Proof.
  induction signals as [|[d0 s0] t IH]; intro Hnd.
  - left. split; [reflexivity|]. intros s [].
  - cbn [map fst] in Hnd. apply NoDup_cons_iff in Hnd.
    destruct Hnd as [Hfresh Hnd]. cbn [filter fst].
    destruct (Z.eqb_spec d0 d) as [->|Hne].
    + right. exists s0.
      assert (Hnone : filter (fun ds => (fst ds =? d)%Z) t = []).
      { apply filter_none. intros [d' s'] Hin. cbn [fst].
        apply Z.eqb_neq. intros ->. apply Hfresh.
        apply (in_map fst) in Hin. exact Hin. }
      rewrite Hnone. split; [reflexivity|].
      intros s' [E|Hin]; [congruence|].
      exfalso. apply Hfresh. apply (in_map fst) in Hin. exact Hin.
    + destruct (IH Hnd) as [[Hnil Hno]|(s & Hs & Huniq)].
      * left. split; [exact Hnil|]. intros s [E|Hin]; [congruence|].
        exact (Hno s Hin).
      * right. exists s. split; [exact Hs|].
        intros s' [E|Hin]; [congruence|]. exact (Huniq s' Hin).
Qed.

Lemma merge_left_unique (prices : list (Z * Q)) (signals : list (Z * Z)) :
  NoDup (map fst signals) ->
  map fst (merge_left prices signals) = prices /\
  forall d p s, In (d, p) prices -> In (d, s) signals ->
    In (d, p, Some s) (merge_left prices signals).
Proof.
  intro Hnd. unfold merge_left. induction prices as [|[d0 p0] t [IHmap IHin]].
  - split; [reflexivity|]. intros d p s [].
  - cbn [flat_map fst snd].
    destruct (filter_unique_date signals d0 Hnd)
      as [[Hnil Hno]|(s0 & Hs0 & Huniq)].
    + rewrite Hnil. cbn [app map fst]. split; [f_equal; exact IHmap|].
      intros d p s [E|Hin] Hs.
      * injection E as <- <-. exfalso. exact (Hno s Hs).
      * right. exact (IHin d p s Hin Hs).
    + rewrite Hs0. cbn [map app fst snd]. split; [f_equal; exact IHmap|].
      intros d p s [E|Hin] Hs.
      * injection E as <- <-. left. rewrite (Huniq s Hs). reflexivity.
      * right. exact (IHin d p s Hin Hs).
Qed.

Lemma sort_index_sorted {R : Type} (rows : list (Z * R)) :
  StronglySorted Z.le (map fst rows) -> sort_index rows = rows.
Proof.
  unfold sort_index. induction rows as [|r t IH]; intro Hs; [reflexivity|].
  cbn [map] in Hs. apply StronglySorted_inv in Hs. destruct Hs as [Ht Hall].
  cbn [fold_right]. rewrite (IH Ht).
  destruct t as [|r' t']; [reflexivity|].
  cbn [insert_by_date]. apply Forall_inv in Hall.
  destruct (Z.leb_spec (fst r) (fst r')) as [_|Hgt]; [reflexivity|].
  cbn [map fst] in Hall. lia.
Qed.

Lemma ffill_from_keeps {A : Type} (s : list (option A)) :
  forall (last : option A) (i : nat) (v : A),
    nth_error s i = Some (Some v) ->
    nth_error (ffill_from last s) i = Some (Some v).
Proof.
  induction s as [|[a|] t IH]; intros last i v H.
  - destruct i; discriminate.
  - destruct i as [|i]; [exact H|]. simpl in *. apply IH. exact H.
  - destruct i as [|i]; [discriminate|]. simpl in *. apply IH. exact H.
Qed.

(** X25: with one signal per date and prices in date order, the prepared
    table lives on the price axis: it has exactly the dates and prices of
    the price series, in order, and the row of a date that has a signal
    carries that signal. *)
Theorem prepared_table_on_price_axis (price_series : list (Z * Q))
    (signals_df : list (Z * Z)) :
  price_series <> [] ->
  NoDup (map fst signals_df) ->
  StronglySorted Z.le (map fst price_series) ->
  exists df,
    prepare_data None None price_series signals_df = Ok df /\
    map (fun r => (fst r, price (snd r))) df = price_series /\
    forall d p s, In (d, p) price_series -> In (d, s) signals_df ->
      In (d, bar p s) df.
Proof.
  intros Hne Hnd Hsorted.
  destruct (merge_left_unique price_series signals_df Hnd) as [Hmap Hin].
  unfold prepare_data. destruct price_series as [|dp0 rest] eqn:Eprices;
    [congruence|]. rewrite <- Eprices in *.
  set (merged := merge_left price_series signals_df) in *.
  set (filled := map (fun o : option Z => match o with Some s => s | None => 0%Z end)
                     (ffill (map snd merged))).
  set (rows := zip_with (fun (dps : Z * Q * option Z) (s : Z) =>
                           (fst (fst dps), bar (snd (fst dps)) s)) merged filled).
  assert (Hlen : length filled = length merged).
  { unfold filled, ffill. rewrite length_map, ffill_from_length, length_map.
    reflexivity. }
  assert (Hcell : forall i m, nth_error merged i = Some m ->
            exists s, nth_error filled i = Some s /\
                      nth_error rows i = Some (fst (fst m), bar (snd (fst m)) s) /\
                      (forall s', snd m = Some s' -> s = s')).
  { intros i m Hm.
    assert (Hi : (i < length filled)%nat).
    { rewrite Hlen. apply nth_error_Some. congruence. }
    destruct (nth_error filled i) as [s|] eqn:Hf;
      [|apply nth_error_None in Hf; lia].
    exists s. split; [reflexivity|]. split.
    - unfold rows. rewrite nth_error_zip_with, Hm, Hf. reflexivity.
    - intros s' Hs'.
      assert (Hk : nth_error (ffill (map snd merged)) i = Some (Some s')).
      { apply ffill_from_keeps. rewrite nth_error_map, Hm, <- Hs'. reflexivity. }
      unfold filled in Hf. rewrite nth_error_map, Hk in Hf.
      cbn [option_map] in Hf. congruence. }
  assert (Hrows_axis : map (fun r : Z * Bar => (fst r, price (snd r))) rows
                       = price_series).
  { rewrite <- Hmap. apply nth_error_ext. intro i. rewrite !nth_error_map.
    destruct (nth_error merged i) as [m|] eqn:Hm.
    - destruct (Hcell i m Hm) as (s & _ & Hr & _). rewrite Hr.
      cbn [option_map fst snd price bar]. destruct m as [[d p] o]. reflexivity.
    - assert (Hnone : nth_error rows i = None).
      { apply nth_error_None. unfold rows. rewrite zip_with_length.
        apply nth_error_None in Hm. lia. }
      rewrite Hnone. reflexivity. }
  assert (Hsort : sort_index rows = rows).
  { apply sort_index_sorted.
    replace (map fst rows)
      with (map fst (map (fun r : Z * Bar => (fst r, price (snd r))) rows))
      by (rewrite map_map; reflexivity).
    rewrite Hrows_axis. exact Hsorted. }
  exists rows. split; [rewrite Hsort; reflexivity|].
  split; [exact Hrows_axis|].
  intros d p s Hp Hs. specialize (Hin d p s Hp Hs).
  apply In_nth_error in Hin. destruct Hin as [i Hi].
  destruct (Hcell i _ Hi) as (s0 & _ & Hr & Hsame).
  cbn [fst snd] in Hr, Hsame. rewrite (Hsame s eq_refl) in Hr.
  exact (nth_error_In _ _ Hr).
Qed.

Lemma prepared_table_on_price_axis_witness :
  exists df,
    prepare_data None None [(1%Z, 100); (2%Z, 110); (3%Z, 99)]
                 [(1%Z, 1%Z); (3%Z, (-1)%Z)]
    = Ok df /\
    map (fun r => (fst r, price (snd r))) df
    = [(1%Z, 100); (2%Z, 110); (3%Z, 99)].
Proof.
  assert (Hne : [(1%Z, 100); (2%Z, 110); (3%Z, 99)] <> []) by discriminate.
  assert (Hnd : NoDup (map fst [(1%Z, 1%Z); (3%Z, (-1)%Z)])).
  { repeat constructor; simpl; intuition discriminate. }
  assert (Hs : StronglySorted Z.le
                 (map fst [(1%Z, 100); (2%Z, 110); (3%Z, 99)])).
  { repeat constructor; simpl; lia. }
  destruct (prepared_table_on_price_axis _ _ Hne Hnd Hs) as (df & Hdf & Haxis & _).
  exists df. split; [exact Hdf|exact Haxis].
Defined.

End PrepareData.

(** ** Ranges of the trade statistics and of the percentile *)

Section Ranges.

Import Backtest.

Lemma Qsum_nonneg (l : list Q) : Forall (fun r => 0 <= r) l -> 0 <= Qsum l.
Proof.
  induction 1 as [|r l Hr _ IH]; simpl; [lra|lra].
Qed.

Lemma mean_nonneg (l : list Q) : Forall (fun r => 0 <= r) l -> 0 <= mean l.
Proof.
  intro Hall. unfold mean, len. destruct l as [|r l].
  - vm_compute. intro H. discriminate H.
  - apply Qle_shift_div_l.
    + change 0 with (inject_Z 0). rewrite <- Zlt_Qlt. simpl. lia.
    + rewrite Qmult_0_l. apply Qsum_nonneg. exact Hall.
Qed.

Lemma avg_win_nonneg (tr : list Q) : 0 <= avg_win tr.
Proof.
  unfold avg_win. destruct (0 <? len (winners tr))%Z; [|lra].
  apply mean_nonneg. apply Forall_forall. intros r Hr.
  unfold winners in Hr. apply filter_In in Hr. destruct Hr as [_ Hr].
  apply Qlt_bool_iff in Hr. lra.
Qed.

(** X26: whatever the segment returns, the win rate is a number in
    [0, 1] and the profit factor is never negative. *)
Theorem trade_statistics_ranges (tr : list Q) :
  0 <= win_rate tr <= 1 /\ 0 <= profit_factor tr.
Proof.
  split.
  - unfold win_rate. destruct (Z.ltb_spec 0 (len tr)) as [Hpos|_]; [|lra].
    assert (Hden : 0 < inject_Z (len tr)).
    { change 0 with (inject_Z 0). rewrite <- Zlt_Qlt. exact Hpos. }
    assert (Hle : (len (winners tr) <= len tr)%Z).
    { unfold len, winners. pose proof (filter_length_le (fun r => Qlt_bool 0 r) tr).
      lia. }
    split.
    + apply Qle_shift_div_l; [exact Hden|]. rewrite Qmult_0_l.
      change 0 with (inject_Z 0). rewrite <- Zle_Qle. unfold len. lia.
    + apply Qle_shift_div_r; [exact Hden|]. rewrite Qmult_1_l.
      rewrite <- Zle_Qle. exact Hle.
  - unfold profit_factor. destruct (Qlt_bool 0 (avg_loss tr)) eqn:E; [|lra].
    apply Qlt_bool_iff in E. apply Qle_shift_div_l; [exact E|].
    rewrite Qmult_0_l. apply avg_win_nonneg.
Qed.

End Ranges.

Section Extremes.

Import Factors.

Lemma iloc_last_snoc {A : Type} (init : list A) (c : A) :
  iloc_last (init ++ [c]) = Some c.
Proof.
  induction init as [|a init IH]; [reflexivity|].
  cbn [app]. rewrite iloc_last_cons; [exact IH|].
  destruct init; discriminate.
Qed.

Lemma filter_app_all {A : Type} (f : A -> bool) (init : list A) (c : A) :
  (forall x, In x init -> f x = true) -> f c = false ->
  filter f (init ++ [c]) = init.
Proof.
  intros Hall Hc. rewrite filter_app. cbn [filter]. rewrite Hc, app_nil_r.
  apply filter_all. exact Hall.
Qed.

(** X27: a new high scores 1.  When the slice at a position holds at
    least two values, none missing, meets the minimum-data cutoff, and
    its current value is strictly greater than every other value of the
    slice, the rolling percentile at that position is exactly 1. *)
Theorem strict_maximum_scores_one (series : list (option Q)) (window : Z)
    (i : nat) (init : list (option Q)) (c : Q) :
  (1 <= window)%Z -> (i < length series)%nat ->
  window_at series (Z.to_nat window) i = init ++ [Some c] ->
  init <> [] ->
  (forall v, In v init -> exists q, v = Some q /\ q < c) ->
  (window <= 2 * len (init ++ [Some c]))%Z ->
  exists out v,
    rolling_percentile series window = Ok out /\
    nth_error out i = Some (Some v) /\ v == 1.
Proof.
  intros HW Hi Hx Hne Hbelow Hcut.
  destruct (rolling_percentile_cells series window HW) as (out & Hout & _ & Hcells).
  destruct (Hcells i Hi) as (cur & Hcur & Hcell). rewrite Hx in Hcur, Hcell.
  rewrite iloc_last_snoc in Hcur. injection Hcur as <-.
  assert (Hcount : count_valid (init ++ [Some c]) = len (init ++ [Some c])).
  { apply count_valid_full. apply Forall_forall. intros v Hv.
    apply in_app_or in Hv. destruct Hv as [Hv|[<-|[]]]; [|discriminate].
    destruct (Hbelow v Hv) as (q & -> & _). discriminate. }
  rewrite Hcount in Hcell.
  destruct (Z.leb_spec (window / 2) (len (init ++ [Some c]))) as [_|Hmin];
    [|Z.to_euclidean_division_equations; lia].
  destruct (Z.leb_spec window (2 * len (init ++ [Some c]))) as [_|Hhalf]; [|lia].
  cbn [andb] in Hcell.
  exists out, (rank_fraction (init ++ [Some c]) (Some c)).
  split; [exact Hout|]. split; [exact Hcell|].
  unfold rank_fraction, rank_of.
  rewrite filter_app_all.
  - assert (Hlen : len (init ++ [Some c]) = (len init + 1)%Z).
    { unfold len. rewrite length_app. simpl. lia. }
    rewrite Hlen.
    assert (Hpos : (0 < len init)%Z).
    { unfold len. destruct init; [congruence|simpl; lia]. }
    destruct (Z.ltb_spec 1 (len init + 1)) as [_|H]; [|lia].
    replace (len init + 1 - 1)%Z with (len init) by lia.
    unfold Qdiv. apply Qmult_inv_r.
    intro Hz. unfold Qeq in Hz. cbn [Qnum Qden inject_Z] in Hz. lia.
  - intros v Hv. destruct (Hbelow v Hv) as (q & -> & Hq).
    apply Qlt_bool_iff. exact Hq.
  - apply lt_scalar_irrefl.
Qed.

Lemma strict_maximum_scores_one_witness :
  exists out v,
    rolling_percentile [Some 10; Some 20; Some 30] 3 = Ok out /\
    nth_error out 2 = Some (Some v) /\ v == 1.
Proof.
  assert (HW : (1 <= 3)%Z) by lia.
  assert (Hi : (2 < length [Some 10%Q; Some 20%Q; Some 30%Q])%nat) by (simpl; lia).
  assert (Hx : window_at [Some 10; Some 20; Some 30] (Z.to_nat 3) 2
               = [Some 10; Some 20] ++ [Some 30]) by reflexivity.
  assert (Hne : [Some 10; Some 20] <> []) by discriminate.
  assert (Hbelow : forall v, In v [Some 10; Some 20] ->
                     exists q, v = Some q /\ q < 30).
  { intros v [<-|[<-|[]]]; eexists; split; reflexivity. }
  assert (Hcut : (3 <= 2 * len ([Some 10; Some 20] ++ [Some 30]))%Z)
    by (vm_compute; discriminate).
  exact (strict_maximum_scores_one _ 3 2 _ 30 HW Hi Hx Hne Hbelow Hcut).
Defined.

End Extremes.
